(** * TBO event management: room mapping and guest grouping

    A shallow embedding of the two pages of the repository:

    - [src/app/events/[eventId]/room-mapping/page.tsx]: the drag-and-drop
      room assignment handlers ([handleDragStart], [handleDropToRoom],
      [handleDropToUnassigned], [handleAutoAssign], [handleReset]);
    - [src/src/app/events/[eventId]/manage-guests/page.tsx]: the grouping of
      the fetched guests by family ([groupedGuests], [guestGroups]).

    React state is modelled by an explicit record that every handler takes
    and returns.  A JavaScript [number] is modelled by [Z]: the data model
    only puts integers in [occupancy] and [capacity], on which the floating
    point sum and comparison of the source are exact. *)

From stdpp Require Import base list strings gmap pretty.
From Stdlib Require Import ZArith Lia.
From Stdlib Require Import Ascii.

Open Scope Z_scope.

(** ** Room mapping page *)

Module RoomMapping.

(** [interface Guest { id; name; occupancy }] *)
Record Guest := mkGuest {
  guest_id : string;
  guest_name : string;
  occupancy : Z
}.

(** [interface Room { id; hotel; type; capacity; assigned }] *)
Record Room := mkRoom {
  room_id : string;
  hotel : string;
  room_type : string;
  capacity : Z;
  assigned : list Guest
}.

#[global] Instance Guest_eq_dec : EqDecision Guest.
Proof. solve_decision. Defined.

#[global] Instance Room_eq_dec : EqDecision Room.
Proof. solve_decision. Defined.

(** The four [useState] cells of the component.  [draggedGuest] holds the
    guest being dragged and its [source], which is either the literal
    ['unassigned'] or the id of a room. *)
Record State := mkState {
  unassignedGuests : list Guest;
  rooms : list Room;
  draggedGuest : option (Guest * string);
  warning : option string
}.

(** [{ ...room, assigned: a }] *)
Definition with_assigned (room : Room) (a : list Guest) : Room :=
  {| room_id := room_id room; hotel := hotel room;
     room_type := room_type room; capacity := capacity room;
     assigned := a |}.

(** [l.reduce((sum, g) => sum + g.occupancy, 0)] *)
Definition occupancy_sum (l : list Guest) : Z :=
  fold_left (λ sum g, sum + occupancy g) l 0.

(** [room.assigned.reduce((sum, g) => sum + g.occupancy, 0)] *)
Definition currentOccupancy (room : Room) : Z :=
  occupancy_sum (assigned room).

(** [list.filter(g => g.id !== guest.id)] *)
Definition remove_guest (guest : Guest) (l : list Guest) : list Guest :=
  filter (λ g, guest_id g ≠ guest_id guest) l.

(** The template literal of the capacity warning. *)
Definition capacity_warning (guest : Guest) (targetRoom : Room) : string :=
  "⚠️ Cannot assign " +:+ guest_name guest +:+ " to " +:+
  room_type targetRoom +:+ ". Room capacity (" +:+
  pretty (capacity targetRoom) +:+ ") would be exceeded.".

(** What a handler does: it runs to its end and leaves a new state, or it
    stops on an uncaught [TypeError] before any setter has been called. *)
Inductive Outcome :=
  | Done (s : State)
  | TypeError.

(** The state React holds once the handler is over. *)
Definition commit (s : State) (o : Outcome) : State :=
  match o with
  | Done s' => s'
  | TypeError => s
  end.

Definition handleDragStart (guest : Guest) (source : string) (s : State) : State :=
  {| unassignedGuests := unassignedGuests s;
     rooms := rooms s;
     draggedGuest := Some (guest, source);
     warning := None |}.

(** [rooms.findIndex(r => r.id === targetRoomId)] followed by
    [rooms[targetRoomIndex]] is [list_find]; index [-1] is [None], and then
    [targetRoom] is [undefined] and reading [targetRoom.assigned] throws. *)
Definition handleDropToRoom (targetRoomId : string) (s : State) : Outcome :=
  match draggedGuest s with
  | None => Done s
  | Some (guest, source) =>
    match list_find (λ r, room_id r = targetRoomId) (rooms s) with
    | None => TypeError
    | Some (targetRoomIndex, targetRoom) =>
      if bool_decide (currentOccupancy targetRoom + occupancy guest > capacity targetRoom)
      then
        Done {| unassignedGuests := unassignedGuests s;
                rooms := rooms s;
                draggedGuest := None;
                warning := Some (capacity_warning guest targetRoom) |}
      else
        let newRooms := rooms s in
        let '(newRooms, unassigned) :=
          if bool_decide (source ≠ "unassigned") then
            match list_find (λ r, room_id r = source) newRooms with
            | Some (sourceRoomIndex, sourceRoom) =>
              (<[sourceRoomIndex :=
                   with_assigned sourceRoom
                     (remove_guest guest (assigned sourceRoom))]> newRooms,
               unassignedGuests s)
            | None => (newRooms, unassignedGuests s)
            end
          else (newRooms, remove_guest guest (unassignedGuests s)) in
        let newRooms :=
          <[targetRoomIndex :=
              with_assigned targetRoom (assigned targetRoom ++ [guest])]> newRooms in
        Done {| unassignedGuests := unassigned;
                rooms := newRooms;
                draggedGuest := None;
                warning := None |}
    end
  end.

Definition handleDropToUnassigned (s : State) : State :=
  match draggedGuest s with
  | None => s
  | Some (guest, source) =>
    if bool_decide (source = "unassigned") then
      {| unassignedGuests := unassignedGuests s;
         rooms := rooms s;
         draggedGuest := None;
         warning := warning s |}
    else
      {| unassignedGuests := unassignedGuests s ++ [guest];
         rooms :=
           (λ room,
              if bool_decide (room_id room = source)
              then with_assigned room (remove_guest guest (assigned room))
              else room) <$> rooms s;
         draggedGuest := draggedGuest s;
         warning := None |}
  end.

(** The inner [remainingGuests.forEach] of [handleAutoAssign]; the
    accumulator is [(guestsToAdd, roomSpace, nextRemaining)]. *)
Definition fit_guest (acc : list Guest * Z * list Guest) (guest : Guest)
  : list Guest * Z * list Guest :=
  let '(guestsToAdd, roomSpace, nextRemaining) := acc in
  if bool_decide (occupancy guest ≤ roomSpace)
  then (guestsToAdd ++ [guest], roomSpace - occupancy guest, nextRemaining)
  else (guestsToAdd, roomSpace, nextRemaining ++ [guest]).

(** The body of [newRooms.forEach((room, roomIndex) => ...)]; the
    accumulator is [(newRooms, remainingGuests)]. *)
Definition fill_room (acc : list Room * list Guest) (visit : nat * Room)
  : list Room * list Guest :=
  let '(newRooms, remainingGuests) := acc in
  let '(roomIndex, room) := visit in
  let roomSpace := capacity room - currentOccupancy room in
  if bool_decide (roomSpace > 0) then
    let '(guestsToAdd, _, nextRemaining) :=
      fold_left fit_guest remainingGuests ([], roomSpace, []) in
    let newRooms :=
      if bool_decide (0 < length guestsToAdd)%nat
      then <[roomIndex := with_assigned room (assigned room ++ guestsToAdd)]> newRooms
      else newRooms in
    (newRooms, nextRemaining)
  else (newRooms, remainingGuests).

Definition handleAutoAssign (s : State) : State :=
  let '(newRooms, remainingGuests) :=
    fold_left fill_room (imap pair (rooms s)) (rooms s, unassignedGuests s) in
  {| unassignedGuests := remainingGuests;
     rooms := newRooms;
     draggedGuest := draggedGuest s;
     warning := if bool_decide (length remainingGuests = 0%nat)
                then None else warning s |}.

Definition handleReset (s : State) : State :=
  let allGuests :=
    fold_left (λ all room, all ++ assigned room) (rooms s) (unassignedGuests s) in
  let resetRooms := (λ room, with_assigned room []) <$> rooms s in
  {| unassignedGuests := allGuests;
     rooms := resetRooms;
     draggedGuest := draggedGuest s;
     warning := None |}.

(** *** The engine operations

    A drag gesture is [handleDragStart] on a rendered card followed by a
    drop.  [assign] and [unassign] are these two gestures; [autoAssign] and
    [reset] are the two buttons. *)

Definition assign (guest : Guest) (source targetRoomId : string) (s : State) : Outcome :=
  handleDropToRoom targetRoomId (handleDragStart guest source s).

Definition unassign (guest : Guest) (source : string) (s : State) : State :=
  handleDropToUnassigned (handleDragStart guest source s).

Definition autoAssign : State → State := handleAutoAssign.

Definition reset : State → State := handleReset.

Inductive Op :=
  | OpAssign (guest : Guest) (source targetRoomId : string)
  | OpUnassign (guest : Guest) (source : string)
  | OpAutoAssign
  | OpReset.

Definition step (s : State) (op : Op) : State :=
  match op with
  | OpAssign guest source targetRoomId =>
      let s0 := handleDragStart guest source s in
      commit s0 (handleDropToRoom targetRoomId s0)
  | OpUnassign guest source => unassign guest source s
  | OpAutoAssign => autoAssign s
  | OpReset => reset s
  end.

(** The states after each call of a sequence of calls. *)
Fixpoint trace (s : State) (ops : list Op) : list State :=
  match ops with
  | [] => []
  | op :: ops' => step s op :: trace (step s op) ops'
  end.

(** The cards the page renders, which are the only arguments
    [handleDragStart] is called with: a guest of the pool with source
    ['unassigned'], or a guest of a room's list with that room's id. *)
Definition located (s : State) (guest : Guest) (source : string) : Prop :=
  (source = "unassigned" ∧ guest ∈ unassignedGuests s) ∨
  (source ≠ "unassigned" ∧
   ∃ room, room ∈ rooms s ∧ room_id room = source ∧ guest ∈ assigned room).

Definition op_rendered (s : State) (op : Op) : Prop :=
  match op with
  | OpAssign guest source targetRoomId =>
      located s guest source ∧ ∃ room, room ∈ rooms s ∧ room_id room = targetRoomId
  | OpUnassign guest source => located s guest source
  | OpAutoAssign | OpReset => True
  end.

(** The guest a call moves has the occupancy of the data model. *)
Definition op_occupancy_nonneg (op : Op) : Prop :=
  match op with
  | OpAssign guest _ _ | OpUnassign guest _ => 0 ≤ occupancy guest
  | OpAutoAssign | OpReset => True
  end.

(** The state the page starts from when nothing was saved: the initial
    value of [unassignedGuests] and the fallback rooms of the effect. *)
Definition demo_state : State :=
  {| unassignedGuests :=
       [ {| guest_id := "1"; guest_name := "Rajesh Kumar"; occupancy := 2 |};
         {| guest_id := "2"; guest_name := "Priya Sharma"; occupancy := 1 |};
         {| guest_id := "3"; guest_name := "Amit Patel"; occupancy := 3 |};
         {| guest_id := "4"; guest_name := "Sneha Reddy"; occupancy := 2 |} ];
     rooms :=
       [ {| room_id := "r1"; hotel := "The Grand Palace";
            room_type := "Deluxe Room"; capacity := 2; assigned := [] |};
         {| room_id := "r2"; hotel := "The Grand Palace";
            room_type := "Premium Suite"; capacity := 3; assigned := [] |} ];
     draggedGuest := None;
     warning := None |}.

(** *** State predicates *)

Definition all_guests (s : State) : list Guest :=
  unassignedGuests s ++ concat (assigned <$> rooms s).

Definition capacity_ok (s : State) : Prop :=
  Forall (λ room, currentOccupancy room ≤ capacity room) (rooms s).

(** The data model's occupancy is a positive integer; the proofs only need
    that it is not negative. *)
Definition occupancy_nonneg (s : State) : Prop :=
  Forall (λ g, 0 ≤ occupancy g) (all_guests s).

(** The fields of a room that no handler writes. *)
Definition room_frame (room : Room) : string * string * string * Z :=
  (room_id room, hotel room, room_type room, capacity room).

(** *** The loops of [handleAutoAssign], room by room

    The scan of the remaining guests for one room, and the visit of the
    rooms: the folds of the source written by recursion on the list, with
    the source's test [roomSpace > 0] before a room is scanned. *)

Fixpoint scan_guests (roomSpace : Z) (remaining : list Guest)
  : list Guest * list Guest :=
  match remaining with
  | [] => ([], [])
  | guest :: rest =>
    if bool_decide (occupancy guest ≤ roomSpace) then
      let '(added, carried) := scan_guests (roomSpace - occupancy guest) rest in
      (guest :: added, carried)
    else
      let '(added, carried) := scan_guests roomSpace rest in
      (added, guest :: carried)
  end.

Fixpoint fill_rooms (rs : list Room) (remainingGuests : list Guest)
  : list Room * list Guest :=
  match rs with
  | [] => ([], remainingGuests)
  | room :: rest =>
    let roomSpace := capacity room - currentOccupancy room in
    if bool_decide (roomSpace > 0) then
      let '(guestsToAdd, nextRemaining) := scan_guests roomSpace remainingGuests in
      let '(rest', final) := fill_rooms rest nextRemaining in
      (with_assigned room (assigned room ++ guestsToAdd) :: rest', final)
    else
      let '(rest', final) := fill_rooms rest remainingGuests in
      (room :: rest', final)
  end.

(** *** [autoAssign] as the specification words it

    Visit the rooms once, in order; in each room scan the remaining guests
    in order, add a guest exactly when its occupancy is at most the current
    [roomSpace], and carry the others forward to the next room. *)

Fixpoint scan_in_order (roomSpace : Z) (remaining : list Guest)
  : list Guest * list Guest :=
  match remaining with
  | [] => ([], [])
  | guest :: rest =>
    if bool_decide (occupancy guest ≤ roomSpace) then
      let '(added, carried) := scan_in_order (roomSpace - occupancy guest) rest in
      (guest :: added, carried)
    else
      let '(added, carried) := scan_in_order roomSpace rest in
      (added, guest :: carried)
  end.

(** The sum of the occupancies of a list of guests. *)
Fixpoint total_occupancy (l : list Guest) : Z :=
  match l with
  | [] => 0
  | guest :: rest => occupancy guest + total_occupancy rest
  end.

Fixpoint first_fit (rs : list Room) (pool : list Guest)
  : list Room * list Guest :=
  match rs with
  | [] => ([], pool)
  | room :: rest =>
    let roomSpace := capacity room - total_occupancy (assigned room) in
    let '(added, carried) := scan_in_order roomSpace pool in
    let '(rest', pool') := first_fit rest carried in
    ({| room_id := room_id room; hotel := hotel room;
        room_type := room_type room; capacity := capacity room;
        assigned := assigned room ++ added |} :: rest', pool')
  end.

(** *** What the page renders for a room *)

(** [const isFull = currentOccupancy >= room.capacity] *)
Definition isFull (room : Room) : bool :=
  bool_decide (currentOccupancy room >= capacity room).

(** The [disabled] attribute of the Auto Assign button. *)
Definition autoAssignDisabled (s : State) : bool :=
  bool_decide (length (unassignedGuests s) = 0%nat).

(** *** Sequences of gestures on rendered cards *)

(** A drop on the room the card is dragged from. *)
Definition same_room_drop (op : Op) : Prop :=
  match op with
  | OpAssign _ source targetRoomId => source = targetRoomId
  | _ => False
  end.

(** Every call of the sequence is made on a card and a drop zone of the
    state it is made in, and moves the guest to another place. *)
Fixpoint ops_rendered (s : State) (ops : list Op) : Prop :=
  match ops with
  | [] => True
  | op :: ops' =>
      op_rendered s op ∧ ¬ same_room_drop op ∧ ops_rendered (step s op) ops'
  end.

(** *** The rooms the page starts with

    The effect reads the saved mapping and the hotels of [../hotels/data].
    That module is not among the sources: a hotel is taken with the fields
    the effect reads ([name] and the categories of [rooms], in the order of
    [Object.values]), a room type with [id], [name] and [capacity], and the
    result of [HOTELS.find] is an input.  [selectedRooms] is the list of
    its [Object.entries]. *)

Record RoomType := mkRoomType {
  rt_id : Z;
  rt_name : string;
  rt_capacity : Z
}.

Record Hotel := mkHotel {
  hotel_name : string;
  hotel_rooms : list (list RoomType)
}.

(** No character of the string is the dash of the room ids. *)
Fixpoint no_dash (s : string) : Prop :=
  match s with
  | EmptyString => True
  | String a s' => a ≠ "-"%char ∧ no_dash s'
  end.

(** What [JSON.parse(savedMapping)] returns, as far as the effect reads
    it: [null], or a value of which the effect takes [hotelId] and
    [selectedRooms].  Of the first it keeps the hotel that [HOTELS.find]
    gives for it, if any; the second is absent when the value has no
    truthy [selectedRooms], and its counts are numbers, as the cast
    [count as number] has it. *)
Inductive Parsed :=
  | ParsedNull
  | ParsedValue (found : option Hotel) (selectedRooms : option (list (string * Z))).


Section RoomGeneration.

(** [Number(roomId)], for the comparison with the integer [id] of a room
    type: [None] when the key is no integer (and then equal to no id). *)
Variable Number : string → option Z.

(** [JSON.parse]: [None] when it throws its [SyntaxError]. *)
Variable JSON_parse : string → option Parsed.

(** [category.find((r) => r.id === Number(roomId))] *)
Definition find_in_category (roomId : string) (category : list RoomType)
  : option RoomType :=
  match Number roomId with
  | Some n => snd <$> list_find (λ r, rt_id r = n) category
  | None => None
  end.

(** [Object.values(hotel.rooms).forEach(category => { ...; if (found)
    roomDetails = found; })], from [roomDetails] undefined. *)
Definition find_room_details (h : Hotel) (roomId : string) : option RoomType :=
  fold_left
    (λ roomDetails category,
       match find_in_category roomId category with
       | Some found => Some found
       | None => roomDetails
       end)
    (hotel_rooms h) None.

(** The object pushed for instance [i] of a room type. *)
Definition room_instance (h : Hotel) (roomDetails : RoomType) (i : nat) : Room :=
  {| room_id := pretty (rt_id roomDetails) +:+ "-" +:+ pretty (Z.of_nat i);
     hotel := hotel_name h;
     room_type := rt_name roomDetails;
     capacity := rt_capacity roomDetails;
     assigned := [] |}.

(** The callback of [Object.entries(selectedRooms).forEach]; the loop
    [for (let i = 0; i < qty; i++)] runs for [i = 0 .. qty - 1]. *)
Definition generate_entry (h : Hotel) (generatedRooms : list Room)
    (entry : string * Z) : list Room :=
  let '(roomId, qty) := entry in
  if bool_decide (qty > 0) then
    match find_room_details h roomId with
    | Some roomDetails =>
        fold_left (λ rs i, rs ++ [room_instance h roomDetails i])
          (seq 0 (Z.to_nat qty)) generatedRooms
    | None => generatedRooms
    end
  else generatedRooms.

Definition generateRooms (h : Hotel) (selectedRooms : list (string * Z)) : list Room :=
  fold_left (generate_entry h) selectedRooms [].



(** The room type an entry resolves to, when its quantity is positive and
    the hotel knows its key, and the rooms the entry then contributes: the
    two loops of the effect, entry by entry. *)
Definition entry_type (h : Hotel) (entry : string * Z) : option RoomType :=
  if bool_decide (entry.2 > 0) then find_room_details h entry.1 else None.

Definition entry_rooms (h : Hotel) (entry : string * Z) : list Room :=
  match entry_type h entry with
  | Some roomDetails => room_instance h roomDetails <$> seq 0 (Z.to_nat entry.2)
  | None => []
  end.




End RoomGeneration.

End RoomMapping.

(** ** Guest management page *)

Module ManageGuests.

(** [Type: 'adult' | 'child'] *)
Inductive GuestType := adult | child.

(** [interface Guest] of the guest directory. *)
Record Guest := mkGuest {
  ID : string;
  Name : string;
  Age : Z;
  Type_ : GuestType;
  Phone : string;
  Email : string;
  EventID : string;
  FamilyID : string;
  ArrivalDate : string;
  DepartureDate : string
}.

#[global] Instance GuestType_eq_dec : EqDecision GuestType.
Proof. solve_decision. Defined.

#[global] Instance Guest_eq_dec : EqDecision Guest.
Proof. solve_decision. Defined.

(** [guest.FamilyID || guest.ID]: the empty string is the only falsy
    string, so an absent family identifier is the empty one. *)
Definition group_key (guest : Guest) : string :=
  if bool_decide (FamilyID guest = "") then ID guest else FamilyID guest.

(** The accumulator of the [reduce] is the object literal [{}].  It is
    modelled by the finite map of its own properties, together with the
    names it inherits from [Object.prototype]: under such a name [acc[key]]
    is already truthy and is no array, so no group is created and
    [acc[key].push] is not a function. *)
Definition inherited_names : list string :=
  [ "constructor"; "__proto__"; "hasOwnProperty"; "isPrototypeOf";
    "propertyIsEnumerable"; "toLocaleString"; "toString"; "valueOf";
    "__defineGetter__"; "__defineSetter__"; "__lookupGetter__";
    "__lookupSetter__" ].

Inductive Outcome (A : Type) :=
  | Done (a : A)
  | TypeError.
Arguments Done {A} a.
Arguments TypeError {A}.

(** The callback of [guests.reduce]. *)
Definition group_step (acc : gmap string (list Guest)) (guest : Guest)
  : Outcome (gmap string (list Guest)) :=
  let key := group_key guest in
  if bool_decide (key ∈ inherited_names) then TypeError
  else
    let acc :=
      match acc !! key with
      | None => <[key := []]> acc
      | Some _ => acc
      end in
    Done (alter (λ group, group ++ [guest]) key acc).

Definition groupedGuests (guests : list Guest) : Outcome (gmap string (list Guest)) :=
  fold_left
    (λ acc guest,
       match acc with
       | Done m => group_step m guest
       | TypeError => TypeError
       end)
    guests (Done ∅).

(** [Object.values(groupedGuests)]; the order of the groups is not
    modelled. *)
Definition guestGroups (groups : gmap string (list Guest)) : list (list Guest) :=
  (map_to_list groups).*2.

(** [group[0]] *)
Definition headGuest (group : list Guest) : option Guest := group !! 0%nat.

(** [group.slice(1)] *)
Definition otherMembers (group : list Guest) : list Guest := drop 1 group.

(** The guests of a fetched list that have a given key, in fetch order:
    what the specification calls the group of that key. *)
Definition members (key : string) (guests : list Guest) : list Guest :=
  filter (λ g, group_key g = key) guests.

(** *** Fetching the guests

    [interface APIResponse]; in the parsed JSON [data] and [data.guests]
    may be absent, which is [None]. *)
Record APIResponse := mkAPIResponse {
  success : bool;
  data : option (option (list Guest));
  error : option string
}.

(** The [useState] cells of the page. *)
Record PageState := mkPageState {
  guests : list Guest;
  loading : bool;
  expandedRowId : option string
}.

(** The page before the first fetch. *)
Definition initialPage : PageState :=
  {| guests := []; loading := true; expandedRowId := None |}.

(** How the request ends: [fetch] rejects, the response is not [ok],
    [response.json()] rejects (or gives [null], on which reading
    [result.success] throws inside the [try]), or a body is parsed. *)
Inductive FetchResult :=
  | FetchRejected
  | ResponseNotOk
  | JsonRejected
  | Json (result : APIResponse).

(** [!token]: the token is [null] or the empty string. *)
Definition no_token (token : option string) : bool :=
  match token with
  | None => true
  | Some t => bool_decide (t = "")
  end.

(** [result.data?.guests || []] *)
Definition guests_or_empty (result : APIResponse) : list Guest :=
  match data result with
  | Some (Some l) => l
  | _ => []
  end.

(** [fetchGuests] from its call to the end of its [finally]: the cells it
    has written when the request has ended as [r]. *)
Definition fetchGuests (token : option string) (isAuthenticated : bool)
    (r : FetchResult) (st : PageState) : PageState :=
  if no_token token || negb isAuthenticated then st
  else
    match r with
    | Json result =>
        let shown :=
          match success result, data result with
          | true, Some (Some l) => l
          | _, _ => guests_or_empty result
          end in
        {| guests := shown; loading := false;
           expandedRowId := expandedRowId st |}
    | _ =>
        {| guests := guests st; loading := false;
           expandedRowId := expandedRowId st |}
    end.

(** The body of the effect: [if (isAuthenticated) fetchGuests()]. *)
Definition guestsEffect (token : option string) (isAuthenticated : bool)
    (r : FetchResult) (st : PageState) : PageState :=
  if isAuthenticated then fetchGuests token isAuthenticated r st else st.

End ManageGuests.

(** * Properties of the room mapping handlers *)

Section RoomMappingProperties.
Import RoomMapping.

(** ** Sums of occupancies *)

Lemma occupancy_fold_acc (l : list Guest) (a : Z) :
  fold_left (λ sum g, sum + occupancy g) l a = a + occupancy_sum l.
Proof.
  unfold occupancy_sum. revert a.
  induction l as [|g l IH]; intros a; simpl.
  - lia.
  - rewrite IH, (IH (0 + occupancy g)). lia.
Qed.

Lemma occupancy_sum_nil : occupancy_sum [] = 0.
Proof. reflexivity. Qed.

Lemma occupancy_sum_cons (g : Guest) (l : list Guest) :
  occupancy_sum (g :: l) = occupancy g + occupancy_sum l.
Proof.
  unfold occupancy_sum at 1. simpl. rewrite occupancy_fold_acc. lia.
Qed.

Lemma occupancy_sum_app (l1 l2 : list Guest) :
  occupancy_sum (l1 ++ l2) = occupancy_sum l1 + occupancy_sum l2.
Proof.
  induction l1 as [|g l1 IH]; simpl.
  - rewrite occupancy_sum_nil. lia.
  - rewrite !occupancy_sum_cons, IH. lia.
Qed.

Lemma occupancy_sum_nonneg (l : list Guest) :
  Forall (λ g, 0 ≤ occupancy g) l → 0 ≤ occupancy_sum l.
Proof.
  induction 1 as [|g l Hg _ IH].
  - rewrite occupancy_sum_nil. lia.
  - rewrite occupancy_sum_cons. lia.
Qed.

Lemma remove_guest_nil (guest : Guest) : remove_guest guest [] = [].
Proof. reflexivity. Qed.

Lemma remove_guest_cons (guest g : Guest) (l : list Guest) :
  remove_guest guest (g :: l) =
  if decide (guest_id g ≠ guest_id guest)
  then g :: remove_guest guest l else remove_guest guest l.
Proof. unfold remove_guest. by rewrite filter_cons. Qed.

Lemma remove_guest_sum_le (guest : Guest) (l : list Guest) :
  Forall (λ g, 0 ≤ occupancy g) l →
  occupancy_sum (remove_guest guest l) ≤ occupancy_sum l.
Proof.
  induction 1 as [|g l Hg _ IH].
  - rewrite remove_guest_nil. lia.
  - rewrite remove_guest_cons. destruct (decide _);
      rewrite ?occupancy_sum_cons; lia.
Qed.

Lemma remove_guest_Forall (P : Guest → Prop) (guest : Guest) (l : list Guest) :
  Forall P l → Forall P (remove_guest guest l).
Proof.
  rewrite !Forall_forall. intros H g Hg.
  apply list_elem_of_filter in Hg as [_ Hg]. auto.
Qed.

Lemma remove_guest_absent (guest : Guest) (l : list Guest) :
  guest_id guest ∉ guest_id <$> l → remove_guest guest l = l.
Proof.
  induction l as [|g l IH]; intros Hn; [done|].
  rewrite remove_guest_cons. rewrite fmap_cons, not_elem_of_cons in Hn.
  destruct Hn as [Hne Hn]. destruct (decide _) as [_|Hd].
  - by rewrite IH.
  - exfalso. apply Hd. congruence.
Qed.

(** With pairwise distinct ids, filtering by the id of a member removes
    that member and nothing else. *)
Lemma remove_guest_member (guest : Guest) (l1 l2 : list Guest) :
  NoDup (guest_id <$> (l1 ++ guest :: l2)) →
  remove_guest guest (l1 ++ guest :: l2) = l1 ++ l2.
Proof.
  rewrite fmap_app, fmap_cons. intros Hnd.
  apply NoDup_app in Hnd as (Hnd1 & Hdisj & Hnd2).
  apply NoDup_cons in Hnd2 as [Hnot2 _].
  unfold remove_guest. rewrite filter_app, filter_cons.
  destruct (decide _) as [Hd|_]; [done|].
  fold (remove_guest guest l1). fold (remove_guest guest l2).
  rewrite (remove_guest_absent guest l2) by done.
  rewrite (remove_guest_absent guest l1); [done|].
  intros Hin. apply (Hdisj _ Hin). left.
Qed.

Lemma remove_guest_sum (guest : Guest) (l : list Guest) :
  NoDup (guest_id <$> l) → guest ∈ l →
  occupancy_sum (remove_guest guest l) = occupancy_sum l - occupancy guest.
Proof.
  intros Hnd Hin. apply list_elem_of_split in Hin as (l1 & l2 & ->).
  rewrite remove_guest_member by done.
  rewrite !occupancy_sum_app, occupancy_sum_cons. lia.
Qed.

Lemma remove_guest_not_elem (guest : Guest) (l : list Guest) :
  guest ∉ remove_guest guest l.
Proof.
  unfold remove_guest. rewrite list_elem_of_filter. intros [Hne _]. done.
Qed.

(** ** The folds of [handleAutoAssign] are the recursions [scan_guests]
    and [fill_rooms] *)

Lemma scan_guests_fold (l : list Guest) (guestsToAdd : list Guest)
    (roomSpace : Z) (nextRemaining : list Guest) :
  fold_left fit_guest l (guestsToAdd, roomSpace, nextRemaining) =
  (guestsToAdd ++ (scan_guests roomSpace l).1,
   roomSpace - occupancy_sum (scan_guests roomSpace l).1,
   nextRemaining ++ (scan_guests roomSpace l).2).
Proof.
  revert guestsToAdd roomSpace nextRemaining.
  induction l as [|g l IH]; intros a sp n; simpl.
  - rewrite !app_nil_r, occupancy_sum_nil. f_equal. f_equal. lia.
  - case_bool_decide as Hfit; rewrite IH;
      destruct (scan_guests _ l) as [added carried]; simpl.
    + rewrite occupancy_sum_cons, <- app_assoc. simpl. f_equal. f_equal. lia.
    + by rewrite <- app_assoc.
Qed.

Lemma with_assigned_same (room : Room) :
  with_assigned room (assigned room ++ []) = room.
Proof. destruct room. unfold with_assigned. simpl. by rewrite app_nil_r. Qed.

Lemma fill_rooms_fold (rest pre : list Room) (remaining : list Guest) :
  fold_left fill_room (imap (λ i r, (length pre + i, r)%nat) rest)
    (pre ++ rest, remaining) =
  (pre ++ (fill_rooms rest remaining).1, (fill_rooms rest remaining).2).
Proof.
  revert pre remaining.
  induction rest as [|room rest IH]; intros pre remaining; [done|].
  rewrite imap_cons. cbn [fold_left].
  assert (Hshift :
    imap ((λ i r, (length pre + i, r)%nat) ∘ S) rest =
    imap (λ i r, (length (pre ++ [room]) + i, r)%nat) rest).
  { apply imap_ext. intros i r _. simpl. rewrite length_app. simpl.
    f_equal. lia. }
  assert (Hshift' : ∀ r',
    imap ((λ i r, (length pre + i, r)%nat) ∘ S) rest =
    imap (λ i r, (length (pre ++ [r']) + i, r)%nat) rest).
  { intros r'. apply imap_ext. intros i r _. simpl. rewrite length_app. simpl.
    f_equal. lia. }
  unfold fill_room at 2. cbn [fill_rooms].
  case_bool_decide as Hspace.
  - rewrite scan_guests_fold. simpl.
    destruct (scan_guests _ remaining) as [added carried] eqn:Hscan. simpl.
    set (room' := with_assigned room (assigned room ++ added)).
    assert (Hnew :
      (if bool_decide (0 < length added)%nat
       then <[(length pre + 0)%nat := room']> (pre ++ room :: rest)
       else pre ++ room :: rest) = (pre ++ [room']) ++ rest).
    { rewrite <- app_assoc. simpl. case_bool_decide as Hlen.
      - rewrite insert_app_r. done.
      - destruct added; [|simpl in Hlen; lia].
        unfold room'. by rewrite with_assigned_same. }
    rewrite Hnew, (Hshift' room'), IH.
    destruct (fill_rooms rest carried) as [rest' final]. simpl.
    by rewrite <- app_assoc.
  - replace (pre ++ room :: rest) with ((pre ++ [room]) ++ rest)
      by (by rewrite <- app_assoc).
    rewrite Hshift, IH.
    destruct (fill_rooms rest remaining) as [rest' final]. simpl.
    by rewrite <- app_assoc.
Qed.

Lemma handleAutoAssign_unfold (s : State) :
  rooms (handleAutoAssign s) = (fill_rooms (rooms s) (unassignedGuests s)).1 ∧
  unassignedGuests (handleAutoAssign s) =
    (fill_rooms (rooms s) (unassignedGuests s)).2.
Proof.
  unfold handleAutoAssign.
  change (imap pair (rooms s))
    with (imap (λ i r, (length (@nil Room) + i, r)%nat) (rooms s)).
  change (rooms s, unassignedGuests s)
    with ([] ++ rooms s, unassignedGuests s).
  rewrite fill_rooms_fold.
  destruct (fill_rooms _ _); done.
Qed.

(** ** One scan, one pass over the rooms *)

Lemma scan_guests_perm (roomSpace : Z) (l : list Guest) :
  (scan_guests roomSpace l).1 ++ (scan_guests roomSpace l).2 ≡ₚ l.
Proof.
  revert roomSpace. induction l as [|g l IH]; intros sp; simpl; [done|].
  case_bool_decide; [specialize (IH (sp - occupancy g)) | specialize (IH sp)];
    destruct (scan_guests _ l) as [added carried]; simpl in *.
  - by rewrite IH.
  - by rewrite <- Permutation_middle, IH.
Qed.

Lemma scan_guests_fits (roomSpace : Z) (l : list Guest) :
  0 ≤ roomSpace → occupancy_sum (scan_guests roomSpace l).1 ≤ roomSpace.
Proof.
  revert roomSpace. induction l as [|g l IH]; intros sp Hsp; simpl.
  - by rewrite occupancy_sum_nil.
  - case_bool_decide as Hfit.
    + specialize (IH (sp - occupancy g)).
      destruct (scan_guests _ l) as [added carried]; simpl in *.
      rewrite occupancy_sum_cons. lia.
    + specialize (IH sp).
      destruct (scan_guests _ l) as [added carried]; simpl in *. lia.
Qed.

Lemma scan_guests_Forall (P : Guest → Prop) (roomSpace : Z) (l : list Guest) :
  Forall P l →
  Forall P (scan_guests roomSpace l).1 ∧ Forall P (scan_guests roomSpace l).2.
Proof.
  intros H. rewrite <- Forall_app. by rewrite scan_guests_perm.
Qed.

Lemma fill_rooms_frame (rs : list Room) (remaining : list Guest) :
  room_frame <$> (fill_rooms rs remaining).1 = room_frame <$> rs.
Proof.
  revert remaining. induction rs as [|room rs IH]; intros remaining; [done|].
  cbn [fill_rooms]. case_bool_decide.
  - destruct (scan_guests _ remaining) as [added carried].
    specialize (IH carried). destruct (fill_rooms rs carried).
    cbn [fst] in *. rewrite !fmap_cons. by f_equal.
  - specialize (IH remaining). destruct (fill_rooms rs remaining).
    cbn [fst] in *. rewrite !fmap_cons. by f_equal.
Qed.

Lemma fill_rooms_perm (rs : list Room) (remaining : list Guest) :
  (fill_rooms rs remaining).2 ++ concat (assigned <$> (fill_rooms rs remaining).1)
  ≡ₚ remaining ++ concat (assigned <$> rs).
Proof.
  revert remaining. induction rs as [|room rs IH]; intros remaining; [done|].
  cbn [fill_rooms]. case_bool_decide.
  - pose proof (scan_guests_perm (capacity room - currentOccupancy room) remaining) as Hscan.
    destruct (scan_guests _ remaining) as [added carried].
    specialize (IH carried). destruct (fill_rooms rs carried) as [rest' final].
    cbn [fst snd] in *. rewrite !fmap_cons, !concat_cons. cbn [assigned with_assigned].
    rewrite Permutation_app_swap_app, IH, <- Hscan. solve_Permutation.
  - specialize (IH remaining). destruct (fill_rooms rs remaining) as [rest' final].
    cbn [fst snd] in *. rewrite !fmap_cons, !concat_cons.
    rewrite Permutation_app_swap_app, IH. solve_Permutation.
Qed.

Lemma fill_rooms_capacity (rs : list Room) (remaining : list Guest) :
  Forall (λ room, currentOccupancy room ≤ capacity room) rs →
  Forall (λ room, currentOccupancy room ≤ capacity room) (fill_rooms rs remaining).1.
Proof.
  intros Hok. revert remaining.
  induction Hok as [|room rs Hroom _ IH]; intros remaining; [done|].
  simpl. case_bool_decide as Hspace.
  - pose proof (scan_guests_fits (capacity room - currentOccupancy room) remaining) as Hfit.
    destruct (scan_guests _ remaining) as [added carried].
    specialize (IH carried). destruct (fill_rooms rs carried). simpl in *.
    constructor; [|done].
    unfold currentOccupancy in *. simpl. rewrite occupancy_sum_app. lia.
  - specialize (IH remaining). destruct (fill_rooms rs remaining). simpl in *.
    by constructor.
Qed.

(** ** The source's pass is the specification's first fit *)

Lemma scan_in_order_scan_guests (roomSpace : Z) (l : list Guest) :
  scan_in_order roomSpace l = scan_guests roomSpace l.
Proof.
  revert roomSpace. induction l as [|g l IH]; intros sp; [done|].
  simpl. by rewrite !IH.
Qed.

(** A room without space takes no guest of positive occupancy, which is
    why skipping its scan changes nothing. *)
Lemma scan_guests_no_space (roomSpace : Z) (l : list Guest) :
  roomSpace ≤ 0 → Forall (λ g, 0 < occupancy g) l →
  scan_guests roomSpace l = ([], l).
Proof.
  intros Hsp. induction 1 as [|g l Hg _ IH]; [done|].
  simpl. rewrite bool_decide_eq_false_2 by lia. by rewrite IH.
Qed.

Lemma total_occupancy_sum (l : list Guest) :
  total_occupancy l = occupancy_sum l.
Proof.
  induction l as [|g l IH]; [done|].
  cbn [total_occupancy]. by rewrite occupancy_sum_cons, IH.
Qed.

Lemma first_fit_fill_rooms (rs : list Room) (pool : list Guest) :
  Forall (λ g, 0 < occupancy g) pool →
  first_fit rs pool = fill_rooms rs pool.
Proof.
  revert pool. induction rs as [|room rs IH]; intros pool Hpos; [done|].
  cbn [first_fit fill_rooms]. rewrite scan_in_order_scan_guests.
  rewrite total_occupancy_sum.
  change (occupancy_sum (assigned room)) with (currentOccupancy room).
  change {| room_id := room_id room; hotel := hotel room;
            room_type := room_type room; capacity := capacity room;
            assigned := assigned room ++ ?a |}
    with (with_assigned room (assigned room ++ a)).
  case_bool_decide as Hspace.
  - destruct (scan_guests_Forall _ (capacity room - currentOccupancy room) pool Hpos)
      as [_ Hcarried].
    destruct (scan_guests _ pool) as [added carried]. cbn [snd] in Hcarried.
    by rewrite IH.
  - rewrite scan_guests_no_space by (done || lia).
    rewrite IH by done. destruct (fill_rooms rs pool).
    by rewrite with_assigned_same.
Qed.

(** ** Guests of a state *)

Lemma all_guests_Forall (P : Guest → Prop) (s : State) :
  Forall P (all_guests s) ↔
  Forall P (unassignedGuests s) ∧ Forall (λ room, Forall P (assigned room)) (rooms s).
Proof.
  unfold all_guests. rewrite Forall_app, Forall_concat, Forall_fmap. done.
Qed.

Lemma elem_of_concat (x : Guest) (ls : list (list Guest)) :
  x ∈ concat ls ↔ ∃ l, l ∈ ls ∧ x ∈ l.
Proof.
  rewrite list_elem_of_In, in_concat. split.
  - intros (l & Hl & Hx). exists l. by rewrite !list_elem_of_In.
  - intros (l & Hl & Hx). exists l. by rewrite <- !list_elem_of_In.
Qed.

Lemma located_all_guests (s : State) (guest : Guest) (source : string) :
  located s guest source → guest ∈ all_guests s.
Proof.
  unfold all_guests. rewrite elem_of_app.
  intros [[_ Hin]|[_ (room & Hroom & _ & Hin)]]; [by left|right].
  apply elem_of_concat. exists (assigned room). split; [|done].
  apply list_elem_of_fmap. eauto.
Qed.

Lemma list_find_elem (P : Room → Prop) `{∀ r, Decision (P r)}
    (l : list Room) (i : nat) (room : Room) :
  list_find P l = Some (i, room) → l !! i = Some room ∧ room ∈ l ∧ P room.
Proof.
  intros Hfind. apply list_find_Some in Hfind as (Hl & HP & _).
  split_and!; [done| |done]. eapply list_elem_of_lookup_2; eauto.
Qed.

(** ** The fields no handler writes *)

Lemma room_frame_with_assigned (room : Room) (a : list Guest) :
  room_frame (with_assigned room a) = room_frame room.
Proof. reflexivity. Qed.

Lemma frame_insert (l : list Room) (i : nat) (room : Room) (a : list Guest) :
  (room_frame <$> l) !! i = Some (room_frame room) →
  room_frame <$> <[i := with_assigned room a]> l = room_frame <$> l.
Proof.
  intros Hi. rewrite list_fmap_insert, room_frame_with_assigned.
  by apply list_insert_id.
Qed.

Lemma handleDropToRoom_frame (targetRoomId : string) (s s' : State) :
  handleDropToRoom targetRoomId s = Done s' →
  room_frame <$> rooms s' = room_frame <$> rooms s.
Proof.
  unfold handleDropToRoom.
  destruct (draggedGuest s) as [[guest source]|]; [|by intros [= <-]].
  destruct (list_find _ (rooms s)) as [[ti tr]|] eqn:Htarget; [|done].
  apply list_find_elem in Htarget as (Hti & _ & _).
  case_bool_decide; [by intros [= <-]|].
  case_bool_decide.
  - destruct (list_find _ (rooms s)) as [[si sr]|] eqn:Hsource.
    + apply list_find_elem in Hsource as (Hsi & _ & _).
      intros [= <-]. cbn [rooms].
      assert (Hsrc : room_frame <$>
                <[si := with_assigned sr (remove_guest guest (assigned sr))]> (rooms s)
              = room_frame <$> rooms s).
      { apply frame_insert. by rewrite list_lookup_fmap, Hsi. }
      rewrite frame_insert; [done|]. by rewrite Hsrc, list_lookup_fmap, Hti.
    + intros [= <-]. cbn [rooms].
      apply frame_insert. by rewrite list_lookup_fmap, Hti.
  - intros [= <-]. cbn [rooms].
    apply frame_insert. by rewrite list_lookup_fmap, Hti.
Qed.

Lemma handleDropToUnassigned_frame (s : State) :
  room_frame <$> rooms (handleDropToUnassigned s) = room_frame <$> rooms s.
Proof.
  unfold handleDropToUnassigned.
  destruct (draggedGuest s) as [[guest source]|]; [|done].
  case_bool_decide; [done|]. cbn [rooms].
  rewrite <- list_fmap_compose. apply list_fmap_ext.
  intros i room _. simpl. by case_bool_decide.
Qed.

Lemma handleAutoAssign_frame (s : State) :
  room_frame <$> rooms (handleAutoAssign s) = room_frame <$> rooms s.
Proof.
  destruct (handleAutoAssign_unfold s) as [-> _]. apply fill_rooms_frame.
Qed.

Lemma handleReset_frame (s : State) :
  room_frame <$> rooms (handleReset s) = room_frame <$> rooms s.
Proof.
  unfold handleReset. cbn [rooms].
  rewrite <- list_fmap_compose. by apply list_fmap_ext.
Qed.

(** ** [handleReset] *)

Lemma collect_guests (rs : list Room) (allGuests : list Guest) :
  fold_left (λ all room, all ++ assigned room) rs allGuests =
  allGuests ++ concat (assigned <$> rs).
Proof.
  revert allGuests. induction rs as [|room rs IH]; intros allGuests; simpl.
  - by rewrite app_nil_r.
  - by rewrite IH, app_assoc.
Qed.

Lemma cleared_rooms_empty (rs : list Room) :
  concat (assigned <$> ((λ room, with_assigned room []) <$> rs)) = [].
Proof. induction rs as [|room rs IH]; [done|]. simpl. exact IH. Qed.

Lemma handleReset_unfold (s : State) :
  handleReset s =
  {| unassignedGuests := all_guests s;
     rooms := (λ room, with_assigned room []) <$> rooms s;
     draggedGuest := draggedGuest s;
     warning := None |}.
Proof. unfold handleReset, all_guests. by rewrite collect_guests. Qed.

(** ** The capacity invariant, handler by handler *)

Lemma handleDragStart_guests (guest : Guest) (source : string) (s : State) :
  unassignedGuests (handleDragStart guest source s) = unassignedGuests s ∧
  rooms (handleDragStart guest source s) = rooms s.
Proof. done. Qed.

Lemma handleDropToRoom_invariant (targetRoomId : string) (s s' : State)
    (guest : Guest) (source : string) :
  draggedGuest s = Some (guest, source) → 0 ≤ occupancy guest →
  capacity_ok s → occupancy_nonneg s →
  handleDropToRoom targetRoomId s = Done s' →
  capacity_ok s' ∧ occupancy_nonneg s'.
Proof.
  unfold capacity_ok, occupancy_nonneg. rewrite !all_guests_Forall.
  intros Hdrag Hguest Hcap [Hpool Hrooms]. unfold handleDropToRoom. rewrite Hdrag.
  destruct (list_find _ (rooms s)) as [[ti tr]|] eqn:Htarget; [|done].
  apply list_find_elem in Htarget as (Hti & _ & _).
  case_bool_decide as Hfull; [by intros [= <-]|].
  assert (Htr_cap : currentOccupancy (with_assigned tr (assigned tr ++ [guest]))
                    ≤ capacity (with_assigned tr (assigned tr ++ [guest]))).
  { unfold currentOccupancy in *. cbn [assigned capacity with_assigned].
    rewrite occupancy_sum_app, occupancy_sum_cons, occupancy_sum_nil. lia. }
  assert (Htr_nonneg : Forall (λ g, 0 ≤ occupancy g)
                         (assigned (with_assigned tr (assigned tr ++ [guest])))).
  { cbn [assigned with_assigned]. apply Forall_app. split; [|by repeat constructor].
    eapply (Forall_lookup_1 _ _ _ _ Hrooms Hti). }
  case_bool_decide.
  - destruct (list_find _ (rooms s)) as [[si sr]|] eqn:Hsource.
    + apply list_find_elem in Hsource as (Hsi & _ & _).
      pose proof (Forall_lookup_1 _ _ _ _ Hrooms Hsi) as Hsr_nonneg.
      pose proof (Forall_lookup_1 _ _ _ _ Hcap Hsi) as Hsr_cap.
      simpl in Hsr_nonneg, Hsr_cap.
      intros [= <-]. cbn [rooms unassignedGuests]. split_and!; [|done|].
      * apply Forall_insert; [apply Forall_insert|]; [done| |done].
        unfold currentOccupancy in *. cbn [assigned capacity with_assigned].
        pose proof (remove_guest_sum_le guest _ Hsr_nonneg). lia.
      * apply Forall_insert; [apply Forall_insert|]; [done| |done].
        cbn [assigned with_assigned]. by apply remove_guest_Forall.
    + intros [= <-]. cbn [rooms unassignedGuests].
      split_and!; [|done|]; by apply Forall_insert.
  - intros [= <-]. cbn [rooms unassignedGuests].
    split_and!; [by apply Forall_insert|by apply remove_guest_Forall|by apply Forall_insert].
Qed.

Lemma handleDropToUnassigned_invariant (s : State) (guest : Guest) (source : string) :
  draggedGuest s = Some (guest, source) → 0 ≤ occupancy guest →
  capacity_ok s → occupancy_nonneg s →
  capacity_ok (handleDropToUnassigned s) ∧ occupancy_nonneg (handleDropToUnassigned s).
Proof.
  unfold capacity_ok, occupancy_nonneg. rewrite !all_guests_Forall.
  intros Hdrag Hguest Hcap [Hpool Hrooms]. unfold handleDropToUnassigned. rewrite Hdrag.
  case_bool_decide; [done|]. cbn [rooms unassignedGuests].
  rewrite !Forall_fmap. split_and!.
  - eapply Forall_impl; [apply Forall_and; split; [exact Hcap|exact Hrooms]|].
    intros room [Hroom Hnonneg]. simpl. case_bool_decide; [|done].
    unfold currentOccupancy in *. cbn [assigned capacity with_assigned].
    pose proof (remove_guest_sum_le guest _ Hnonneg). lia.
  - apply Forall_app. split; [done|by repeat constructor].
  - eapply Forall_impl; [exact Hrooms|].
    intros room Hnonneg. simpl. case_bool_decide; [|done].
    cbn [assigned with_assigned]. by apply remove_guest_Forall.
Qed.

Lemma handleAutoAssign_guests (s : State) :
  all_guests (handleAutoAssign s) ≡ₚ all_guests s.
Proof.
  unfold all_guests. destruct (handleAutoAssign_unfold s) as [-> ->].
  apply fill_rooms_perm.
Qed.

Lemma handleAutoAssign_invariant (s : State) :
  capacity_ok s → occupancy_nonneg s →
  capacity_ok (handleAutoAssign s) ∧ occupancy_nonneg (handleAutoAssign s).
Proof.
  unfold capacity_ok, occupancy_nonneg. intros Hcap Hnonneg. split.
  - destruct (handleAutoAssign_unfold s) as [-> _]. by apply fill_rooms_capacity.
  - by rewrite handleAutoAssign_guests.
Qed.

Lemma handleReset_guests (s : State) :
  all_guests (handleReset s) = all_guests s.
Proof.
  rewrite handleReset_unfold. unfold all_guests at 1. cbn [unassignedGuests rooms].
  by rewrite cleared_rooms_empty, app_nil_r.
Qed.

Lemma handleReset_invariant (s : State) :
  capacity_ok s → occupancy_nonneg s →
  capacity_ok (handleReset s) ∧ occupancy_nonneg (handleReset s).
Proof.
  unfold capacity_ok, occupancy_nonneg. intros Hcap Hnonneg. split.
  - apply all_guests_Forall in Hnonneg as [_ Hrooms].
    rewrite handleReset_unfold. cbn [rooms]. rewrite Forall_fmap.
    eapply Forall_impl; [apply Forall_and; split; [exact Hcap|exact Hrooms]|].
    intros room [Hroom Hnn]. simpl. unfold currentOccupancy in *.
    cbn [assigned capacity with_assigned].
    pose proof (occupancy_sum_nonneg _ Hnn). rewrite occupancy_sum_nil. lia.
  - by rewrite handleReset_guests.
Qed.

Lemma step_invariant (s : State) (op : Op) :
  op_occupancy_nonneg op → capacity_ok s → occupancy_nonneg s →
  capacity_ok (step s op) ∧ occupancy_nonneg (step s op).
Proof.
  intros Hop Hcap Hnonneg.
  destruct op as [guest source targetRoomId|guest source| |]; cbn [step].
  - destruct (handleDropToRoom targetRoomId (handleDragStart guest source s))
      as [s'|] eqn:Hdrop; cbn [commit].
    + eapply (handleDropToRoom_invariant targetRoomId
                (handleDragStart guest source s) s' guest source);
        [reflexivity|exact Hop|exact Hcap|exact Hnonneg|exact Hdrop].
    + done.
  - eapply (handleDropToUnassigned_invariant
              (handleDragStart guest source s) guest source);
      [reflexivity|exact Hop|exact Hcap|exact Hnonneg].
  - by apply handleAutoAssign_invariant.
  - by apply handleReset_invariant.
Qed.

(** A rendered card shows a guest of the state. *)
Lemma op_rendered_nonneg (s : State) (op : Op) :
  occupancy_nonneg s → op_rendered s op → op_occupancy_nonneg op.
Proof.
  intros Hnonneg Hop.
  assert (Hmember : ∀ guest source, located s guest source → 0 ≤ occupancy guest).
  { intros guest source Hloc. apply located_all_guests in Hloc.
    unfold occupancy_nonneg in Hnonneg. rewrite Forall_forall in Hnonneg. auto. }
  destruct op as [guest source targetRoomId|guest source| |]; cbn in *;
    [destruct Hop as [Hloc _]|..]; eauto.
Qed.

(** ** Conservation of the guests *)

Lemma concat_insert_perm (l : list Room) (i : nat) (x y : Room)
    (gone kept : list Guest) :
  l !! i = Some x →
  assigned y ++ gone ≡ₚ assigned x ++ kept →
  concat (assigned <$> <[i := y]> l) ++ gone ≡ₚ
  concat (assigned <$> l) ++ kept.
Proof.
  intros Hi Hxy. revert i Hi.
  induction l as [|z l IH]; intros [|i] Hi; try done; simpl in *.
  - injection Hi as ->.
    rewrite <- !app_assoc.
    rewrite (Permutation_app_comm (concat _) gone), (Permutation_app_comm (concat _) kept).
    rewrite !app_assoc. by apply Permutation_app_tail.
  - rewrite <- !app_assoc. apply Permutation_app_head. by apply IH.
Qed.

Lemma remove_guest_perm (guest : Guest) (l : list Guest) :
  NoDup (guest_id <$> l) → guest ∈ l →
  guest :: remove_guest guest l ≡ₚ l.
Proof.
  intros Hnd Hin. apply list_elem_of_split in Hin as (l1 & l2 & ->).
  rewrite remove_guest_member by done. apply Permutation_middle.
Qed.

Lemma NoDup_assigned (l : list Room) (room : Room) :
  NoDup (guest_id <$> concat (assigned <$> l)) → room ∈ l →
  NoDup (guest_id <$> assigned room).
Proof.
  intros Hnd Hin. apply list_elem_of_split in Hin as (l1 & l2 & ->).
  rewrite fmap_app, fmap_cons, concat_app, concat_cons, !fmap_app in Hnd.
  apply NoDup_app in Hnd as (_ & _ & Hnd).
  by apply NoDup_app in Hnd as (Hnd & _ & _).
Qed.

(** With pairwise distinct room ids, the room that holds the card is the
    one [findIndex] returns. *)
Lemma list_find_unique (l : list Room) (source : string) (room : Room) :
  NoDup (room_id <$> l) → room ∈ l → room_id room = source →
  ∃ i, list_find (λ r, room_id r = source) l = Some (i, room).
Proof.
  intros Hnd Hin Hid. apply list_elem_of_lookup_1 in Hin as [i Hi].
  exists i. apply list_find_Some. split_and!; [done..|].
  intros j y Hj Hlt Hy.
  assert (i = j); [|lia].
  eapply NoDup_lookup; [exact Hnd|..]; rewrite list_lookup_fmap.
  - by rewrite Hi.
  - rewrite Hj. simpl. congruence.
Qed.

Lemma handleDropToRoom_conserves (targetRoomId : string) (s s' : State)
    (guest : Guest) (source : string) :
  draggedGuest s = Some (guest, source) →
  NoDup (guest_id <$> all_guests s) → NoDup (room_id <$> rooms s) →
  located s guest source → source ≠ targetRoomId →
  handleDropToRoom targetRoomId s = Done s' →
  all_guests s' ≡ₚ all_guests s.
Proof.
  intros Hdrag Hguests Hrooms Hloc Hne. unfold handleDropToRoom. rewrite Hdrag.
  destruct (list_find _ (rooms s)) as [[ti tr]|] eqn:Htarget; [|done].
  apply list_find_elem in Htarget as (Hti & _ & Htid).
  case_bool_decide as Hfull; [by intros [= <-]|].
  unfold all_guests in *. rewrite fmap_app in Hguests.
  apply NoDup_app in Hguests as (Hpool & _ & Hlists).
  destruct Hloc as [[-> Hin]|[Hsrc (room & Hroom & Hid & Hin)]].
  - rewrite bool_decide_eq_false_2 by (by intros []).
    intros [= <-]. cbn [rooms unassignedGuests].
    assert (Hins :
      concat (assigned <$> <[ti := with_assigned tr (assigned tr ++ [guest])]> (rooms s)) ++ []
      ≡ₚ concat (assigned <$> rooms s) ++ [guest]).
    { apply (concat_insert_perm _ ti tr); [done|].
      cbn [assigned with_assigned]. by rewrite app_nil_r. }
    rewrite app_nil_r in Hins. rewrite Hins.
    rewrite <- (remove_guest_perm guest (unassignedGuests s)) at 2 by done.
    solve_Permutation.
  - rewrite bool_decide_eq_true_2 by done.
    destruct (list_find_unique _ _ _ Hrooms Hroom Hid) as [si Hfind].
    rewrite Hfind. apply list_find_elem in Hfind as (Hsi & _ & _).
    assert (si ≠ ti) as Hidx by (intros ->; congruence).
    intros [= <-]. cbn [rooms unassignedGuests].
    apply Permutation_app_head.
    set (sr' := with_assigned room (remove_guest guest (assigned room))).
    set (tr' := with_assigned tr (assigned tr ++ [guest])).
    assert (Hrem :
      concat (assigned <$> <[si := sr']> (rooms s)) ++ [guest]
      ≡ₚ concat (assigned <$> rooms s) ++ []).
    { apply (concat_insert_perm _ si room); [done|].
      subst sr'. cbn [assigned with_assigned]. rewrite app_nil_r.
      rewrite <- (remove_guest_perm guest (assigned room)) at 2
        by eauto using NoDup_assigned.
      by rewrite <- Permutation_cons_append. }
    assert (Htgt :
      concat (assigned <$> <[ti := tr']> (<[si := sr']> (rooms s))) ++ []
      ≡ₚ concat (assigned <$> <[si := sr']> (rooms s)) ++ [guest]).
    { apply (concat_insert_perm _ ti tr); [by rewrite list_lookup_insert_ne|].
      subst tr'. cbn [assigned with_assigned]. by rewrite app_nil_r. }
    rewrite app_nil_r in Hrem, Htgt. by rewrite Htgt, Hrem.
Qed.

(** ** [handleDropToUnassigned] *)

Lemma unassign_other_rooms (guest : Guest) (source : string) (l : list Room) :
  source ∉ room_id <$> l →
  (λ room, if bool_decide (room_id room = source)
           then with_assigned room (remove_guest guest (assigned room))
           else room) <$> l = l.
Proof.
  induction l as [|z l IH]; [done|].
  rewrite !fmap_cons, not_elem_of_cons. intros [Hz Hl].
  rewrite bool_decide_eq_false_2 by congruence. by rewrite IH.
Qed.

Lemma unassign_rooms_perm (guest : Guest) (source : string) (l : list Room)
    (room : Room) :
  NoDup (room_id <$> l) → room ∈ l → room_id room = source →
  guest ∈ assigned room → NoDup (guest_id <$> assigned room) →
  guest :: concat (assigned <$>
    ((λ room, if bool_decide (room_id room = source)
              then with_assigned room (remove_guest guest (assigned room))
              else room) <$> l))
  ≡ₚ concat (assigned <$> l).
Proof.
  intros Hnd Hroom Hid Hin Hguests.
  induction l as [|z l IH]; [by apply elem_of_nil in Hroom|].
  rewrite fmap_cons in Hnd. apply NoDup_cons in Hnd as [Hz Hnd].
  rewrite !fmap_cons, !concat_cons.
  apply elem_of_cons in Hroom as [<-|Hroom].
  - rewrite bool_decide_eq_true_2 by done.
    rewrite unassign_other_rooms by congruence.
    cbn [assigned with_assigned]. rewrite app_comm_cons.
    apply Permutation_app_tail. by apply remove_guest_perm.
  - rewrite bool_decide_eq_false_2.
    + rewrite Permutation_middle. apply Permutation_app_head. by apply IH.
    + intros Hzid. apply Hz. rewrite Hzid, <- Hid. by apply list_elem_of_fmap_2.
Qed.

Lemma handleDropToUnassigned_conserves (s : State) (guest : Guest) (source : string) :
  draggedGuest s = Some (guest, source) →
  NoDup (guest_id <$> all_guests s) → NoDup (room_id <$> rooms s) →
  located s guest source →
  all_guests (handleDropToUnassigned s) ≡ₚ all_guests s.
Proof.
  intros Hdrag Hguests Hrooms Hloc. unfold handleDropToUnassigned. rewrite Hdrag.
  case_bool_decide as Hsrc; [done|].
  destruct Hloc as [[? _]|[_ (room & Hroom & Hid & Hin)]]; [done|].
  unfold all_guests in *. cbn [rooms unassignedGuests].
  rewrite fmap_app in Hguests. apply NoDup_app in Hguests as (_ & _ & Hlists).
  rewrite <- app_assoc. apply Permutation_app_head. simpl.
  eapply unassign_rooms_perm; eauto using NoDup_assigned.
Qed.

Lemma handleDropToUnassigned_room (s : State) (guest : Guest) (source : string)
    (i : nat) (room : Room) :
  draggedGuest s = Some (guest, source) → source ≠ "unassigned" →
  rooms s !! i = Some room → room_id room = source →
  unassignedGuests (handleDropToUnassigned s) = unassignedGuests s ++ [guest] ∧
  rooms (handleDropToUnassigned s) !! i =
    Some (with_assigned room (remove_guest guest (assigned room))) ∧
  warning (handleDropToUnassigned s) = None.
Proof.
  intros Hdrag Hsrc Hi Hid. unfold handleDropToUnassigned. rewrite Hdrag.
  rewrite bool_decide_eq_false_2 by done. cbn [rooms unassignedGuests warning].
  split_and!; [done| |done].
  rewrite list_lookup_fmap, Hi. simpl. by rewrite bool_decide_eq_true_2.
Qed.

(** ** [assign]: the capacity check *)

Lemma assign_rejected (guest : Guest) (source targetRoomId : string) (s : State)
    (i : nat) (room : Room) :
  list_find (λ r, room_id r = targetRoomId) (rooms s) = Some (i, room) →
  currentOccupancy room + occupancy guest > capacity room →
  assign guest source targetRoomId s =
  Done {| unassignedGuests := unassignedGuests s;
          rooms := rooms s;
          draggedGuest := None;
          warning := Some (capacity_warning guest room) |}.
Proof.
  intros Hfind Hfull. unfold assign, handleDropToRoom.
  cbn [handleDragStart draggedGuest rooms unassignedGuests].
  rewrite Hfind. by rewrite bool_decide_eq_true_2.
Qed.

Lemma assign_accepted (guest : Guest) (source targetRoomId : string) (s : State)
    (i : nat) (room : Room) :
  list_find (λ r, room_id r = targetRoomId) (rooms s) = Some (i, room) →
  ¬ currentOccupancy room + occupancy guest > capacity room →
  ∃ s', assign guest source targetRoomId s = Done s' ∧
        warning s' = None ∧ draggedGuest s' = None ∧
        rooms s' !! i = Some (with_assigned room (assigned room ++ [guest])).
Proof.
  intros Hfind Hfits. unfold assign, handleDropToRoom.
  cbn [handleDragStart draggedGuest rooms unassignedGuests].
  rewrite Hfind. rewrite bool_decide_eq_false_2 by done.
  apply list_find_elem in Hfind as (Hi & _ & _).
  apply lookup_lt_Some in Hi.
  case_bool_decide.
  - destruct (list_find _ (rooms s)) as [[si sr]|]; eexists;
      (split_and!; [reflexivity|done|done|]); cbn [rooms];
      apply list_lookup_insert_eq; by rewrite ?length_insert.
  - eexists. split_and!; [reflexivity|done|done|]. cbn [rooms].
    by apply list_lookup_insert_eq.
Qed.

Lemma assign_warning_inv (guest : Guest) (source targetRoomId : string)
    (s s' : State) (w : string) :
  assign guest source targetRoomId s = Done s' → warning s' = Some w →
  unassignedGuests s' = unassignedGuests s ∧ rooms s' = rooms s ∧
  ∃ i room,
    list_find (λ r, room_id r = targetRoomId) (rooms s) = Some (i, room) ∧
    currentOccupancy room + occupancy guest > capacity room ∧
    w = capacity_warning guest room.
Proof.
  unfold assign, handleDropToRoom.
  cbn [handleDragStart draggedGuest rooms unassignedGuests].
  destruct (list_find _ (rooms s)) as [[ti tr]|] eqn:Hfind; [|done].
  case_bool_decide as Hfull.
  - intros [= <-] [= <-]. cbn. eauto 10.
  - case_bool_decide;
      [destruct (list_find (λ r, room_id r = source) (rooms s)) as [[si sr]|]|];
      by intros [= <-].
Qed.

(** ** The engine's properties *)

(** C2. Capacity invariant: from a state in which every room's occupancy sum
    is at most its capacity, after each call of any sequence of [assign],
    [unassign], [autoAssign] and [reset] calls every room still has an
    occupancy sum of at most its capacity, the guests of the state and of
    the calls having the non-negative occupancies of the data model; and an
    [assign] that would exceed the capacity is rejected: it only sets the
    warning and leaves the pool and the rooms as they were. *)
Theorem capacity_invariant_preserved (s : State) (ops : list Op) :
  capacity_ok s → occupancy_nonneg s → Forall op_occupancy_nonneg ops →
  Forall capacity_ok (trace s ops) ∧
  (∀ guest source targetRoomId i room,
     list_find (λ r, room_id r = targetRoomId) (rooms s) = Some (i, room) →
     currentOccupancy room + occupancy guest > capacity room →
     assign guest source targetRoomId s =
     Done {| unassignedGuests := unassignedGuests s;
             rooms := rooms s;
             draggedGuest := None;
             warning := Some (capacity_warning guest room) |}).
Proof.
  intros Hcap Hnonneg Hops. split.
  - revert s Hcap Hnonneg Hops.
    induction ops as [|op ops IH]; intros s Hcap Hnonneg Hops;
      cbn [trace]; [constructor|].
    apply Forall_cons in Hops as [Hop Hops].
    destruct (step_invariant s op Hop Hcap Hnonneg) as [Hcap' Hnonneg'].
    constructor; [done|]. by apply IH.
  - intros guest source targetRoomId i room. apply assign_rejected.
Qed.

Lemma capacity_invariant_preserved_witness :
  let priya := {| guest_id := "2"; guest_name := "Priya Sharma"; occupancy := 1 |} in
  let amit := {| guest_id := "3"; guest_name := "Amit Patel"; occupancy := 3 |} in
  Forall capacity_ok
    (trace demo_state
       [OpAssign priya "unassigned" "r1"; OpAssign amit "unassigned" "r1";
        OpAutoAssign; OpUnassign priya "r1"; OpReset]).
Proof.
  intros priya amit.
  refine (proj1 (capacity_invariant_preserved demo_state _ _ _ _)).
  - unfold capacity_ok, demo_state; simpl. repeat constructor; vm_compute; discriminate.
  - unfold occupancy_nonneg, demo_state; simpl. repeat constructor; vm_compute; discriminate.
  - repeat constructor; vm_compute; discriminate.
Defined.

(** C3. [autoAssign] is the single-pass first fit in order: on a pool of
    guests of positive occupancy the rooms and the pool it leaves are those
    of [first_fit], which visits each room once in list order, takes as
    room space the capacity minus the sum of the occupancies of the guests
    already assigned, and scans the remaining guests in order, adding a
    guest exactly when its occupancy is at most the current room space and
    carrying the others forward.  From the pool [A(2); B(1); C(3)] and the
    empty rooms [R1(2); R2(3)] it leaves [A] in R1, [B] in R2 and [C] in the
    pool; and a room of capacity 3 that already holds a guest of occupancy
    2 has space for 1: from the pool [A(2); B(1)] it takes [B] and leaves
    [A]. *)
Theorem autoAssign_first_fit :
  (∀ s : State,
     Forall (λ g, 0 < occupancy g) (unassignedGuests s) →
     (rooms (autoAssign s), unassignedGuests (autoAssign s)) =
     first_fit (rooms s) (unassignedGuests s)) ∧
  (∀ (A B C : Guest) (R1 R2 : Room) dragged w,
     occupancy A = 2 → occupancy B = 1 → occupancy C = 3 →
     capacity R1 = 2 → assigned R1 = [] →
     capacity R2 = 3 → assigned R2 = [] →
     autoAssign {| unassignedGuests := [A; B; C]; rooms := [R1; R2];
                   draggedGuest := dragged; warning := w |} =
     {| unassignedGuests := [C];
        rooms :=
          [ {| room_id := room_id R1; hotel := hotel R1;
               room_type := room_type R1; capacity := 2; assigned := [A] |};
            {| room_id := room_id R2; hotel := hotel R2;
               room_type := room_type R2; capacity := 3; assigned := [B] |} ];
        draggedGuest := dragged; warning := w |}) ∧
  (∀ (X A B : Guest) (R : Room) dragged w,
     occupancy X = 2 → occupancy A = 2 → occupancy B = 1 →
     capacity R = 3 → assigned R = [X] →
     autoAssign {| unassignedGuests := [A; B]; rooms := [R];
                   draggedGuest := dragged; warning := w |} =
     {| unassignedGuests := [A];
        rooms :=
          [ {| room_id := room_id R; hotel := hotel R;
               room_type := room_type R; capacity := 3; assigned := [X; B] |} ];
        draggedGuest := dragged; warning := w |}).
Proof.
  split_and!.
  - intros s Hpos. unfold autoAssign.
    destruct (handleAutoAssign_unfold s) as [-> ->].
    rewrite first_fit_fill_rooms by done. by destruct (fill_rooms _ _).
  - intros [ida na oa] [idb nb ob] [idc nc oc] [id1 h1 t1 c1 a1] [id2 h2 t2 c2 a2]
      dragged w; simpl; intros -> -> -> -> -> -> ->. reflexivity.
  - intros [idx nx ox] [ida na oa] [idb nb ob] [id1 h1 t1 c1 a1]
      dragged w; simpl; intros -> -> -> -> ->. reflexivity.
Qed.

(** The source's test [roomSpace > 0] only shows on a guest of occupancy
    0, which the data model excludes: a full room is not scanned, so such a
    guest stays in the pool, where the scan of the specification would add
    it. *)
Remark autoAssign_skips_full_room :
  let ghost := {| guest_id := "0"; guest_name := "Nobody"; occupancy := 0 |} in
  let full := {| room_id := "r0"; hotel := "The Grand Palace";
                 room_type := "Deluxe Room"; capacity := 0; assigned := [] |} in
  let s := {| unassignedGuests := [ghost]; rooms := [full];
              draggedGuest := None; warning := None |} in
  unassignedGuests (autoAssign s) = [ghost] ∧
  assigned <$> rooms (autoAssign s) = [[]] ∧
  first_fit (rooms s) (unassignedGuests s) =
    ([ {| room_id := "r0"; hotel := "The Grand Palace";
          room_type := "Deluxe Room"; capacity := 0; assigned := [ghost] |} ],
     []).
Proof. split_and!; reflexivity. Qed.

Lemma autoAssign_first_fit_witness :
  (rooms (autoAssign demo_state), unassignedGuests (autoAssign demo_state)) =
  first_fit (rooms demo_state) (unassignedGuests demo_state) ∧
  assigned <$> rooms (autoAssign demo_state) =
    [ [ {| guest_id := "1"; guest_name := "Rajesh Kumar"; occupancy := 2 |} ];
      [ {| guest_id := "2"; guest_name := "Priya Sharma"; occupancy := 1 |};
        {| guest_id := "4"; guest_name := "Sneha Reddy"; occupancy := 2 |} ] ] ∧
  unassignedGuests (autoAssign demo_state) =
    [ {| guest_id := "3"; guest_name := "Amit Patel"; occupancy := 3 |} ].
Proof.
  split_and!; [|reflexivity..].
  apply (proj1 autoAssign_first_fit demo_state).
  unfold demo_state; simpl. repeat constructor.
Defined.

(** C4. A failed [assign] is a no-op on the collections: when [assign]
    ends with the capacity warning, the pool and the rooms after the call
    are equal to those before it. *)
Theorem assign_failure_noop (guest : Guest) (source targetRoomId : string)
    (s s' : State) (w : string) :
  assign guest source targetRoomId s = Done s' → warning s' = Some w →
  unassignedGuests s' = unassignedGuests s ∧ rooms s' = rooms s.
Proof.
  intros Hassign Hw.
  destruct (assign_warning_inv _ _ _ _ _ _ Hassign Hw) as (Hpool & Hrooms & _).
  done.
Qed.

(** C5. [assign] fails exactly when [currentOccupancy + guest.occupancy >
    capacity] for the target room: then it ends with the warning built from
    the guest's name, the room's type and the room's capacity; otherwise it
    succeeds, without a warning, and the target room holds the guest at the
    end of its list.  For an empty room of capacity 2, a guest of occupancy
    1 is assigned (occupancy becomes 1) and then a guest of occupancy 2 is
    rejected (occupancy stays 1). *)
Theorem assign_fails_iff_over_capacity :
  (∀ (guest : Guest) (source targetRoomId : string) (s : State) (i : nat) (room : Room),
     list_find (λ r, room_id r = targetRoomId) (rooms s) = Some (i, room) →
     (currentOccupancy room + occupancy guest > capacity room →
      assign guest source targetRoomId s =
      Done {| unassignedGuests := unassignedGuests s;
              rooms := rooms s;
              draggedGuest := None;
              warning :=
                Some ("⚠️ Cannot assign " +:+ guest_name guest +:+ " to " +:+
                      room_type room +:+ ". Room capacity (" +:+
                      pretty (capacity room) +:+ ") would be exceeded.") |}) ∧
     (¬ currentOccupancy room + occupancy guest > capacity room →
      ∃ s', assign guest source targetRoomId s = Done s' ∧
            warning s' = None ∧
            rooms s' !! i = Some (with_assigned room (assigned room ++ [guest])))) ∧
  (∀ (g1 g2 : Guest) (room : Room) (pool : list Guest) dragged w,
     capacity room = 2 → assigned room = [] →
     occupancy g1 = 1 → occupancy g2 = 2 →
     ∃ s1 s2,
       assign g1 "unassigned" (room_id room)
         {| unassignedGuests := pool; rooms := [room];
            draggedGuest := dragged; warning := w |} = Done s1 ∧
       warning s1 = None ∧
       currentOccupancy <$> rooms s1 = [1] ∧
       assign g2 "unassigned" (room_id room) s1 = Done s2 ∧
       warning s2 = Some (capacity_warning g2 room) ∧
       currentOccupancy <$> rooms s2 = [1]).
Proof.
  split.
  - intros guest source targetRoomId s i room Hfind. split.
    + intros Hfull. by rewrite (assign_rejected _ _ _ _ _ _ Hfind Hfull).
    + intros Hfits.
      destruct (assign_accepted _ source _ _ _ _ Hfind Hfits)
        as (s' & Hassign & Hw & _ & Hroom).
      eauto.
  - intros [id1 n1 o1] [id2 n2 o2] [rid h t c a] pool dragged w; simpl.
    intros -> -> -> ->.
    unfold assign, handleDropToRoom. simpl.
    rewrite !decide_True by done. simpl.
    do 2 eexists. split_and!; [reflexivity|done|done| |..].
    + simpl. rewrite decide_True by done. simpl. reflexivity.
    + done.
    + done.
Qed.

Lemma assign_failure_noop_witness :
  let amit := {| guest_id := "3"; guest_name := "Amit Patel"; occupancy := 3 |} in
  let s' := commit demo_state (assign amit "unassigned" "r1" demo_state) in
  unassignedGuests s' = unassignedGuests demo_state ∧ rooms s' = rooms demo_state.
Proof.
  intros amit s'.
  apply (assign_failure_noop amit "unassigned" "r1" demo_state s'
           "⚠️ Cannot assign Amit Patel to Deluxe Room. Room capacity (2) would be exceeded.").
  - vm_compute. reflexivity.
  - vm_compute. reflexivity.
Defined.

Lemma assign_fails_iff_over_capacity_witness :
  assign {| guest_id := "3"; guest_name := "Amit Patel"; occupancy := 3 |}
    "unassigned" "r1" demo_state =
  Done {| unassignedGuests := unassignedGuests demo_state;
          rooms := rooms demo_state;
          draggedGuest := None;
          warning :=
            Some "⚠️ Cannot assign Amit Patel to Deluxe Room. Room capacity (2) would be exceeded." |}.
Proof.
  refine (proj1 (proj1 assign_fails_iff_over_capacity
                   {| guest_id := "3"; guest_name := "Amit Patel"; occupancy := 3 |}
                   "unassigned" "r1" demo_state 0%nat
                   {| room_id := "r1"; hotel := "The Grand Palace";
                      room_type := "Deluxe Room"; capacity := 2; assigned := [] |}
                   _) _).
  - vm_compute. reflexivity.
  - vm_compute. reflexivity.
Defined.

(** C6, amended. [unassign] always succeeds: it is a total function of the
    state and never sets a warning.  When the guest is already unassigned
    the pool and the rooms are left as they were.  When the guest resides
    in a room R whose guests have pairwise distinct ids, then after the
    call the guest is the last of the pool, R's assigned list no longer
    contains the guest, R's occupancy sum is smaller by the guest's
    occupancy, and R's other fields are unchanged.  (In a room that holds
    the guest's id more than once the filter by id removes every such
    entry.) *)
Theorem unassign_returns_guest_to_pool (s : State) (guest : Guest) (source : string) :
  warning (unassign guest source s) = None ∧
  (source = "unassigned" →
   unassignedGuests (unassign guest source s) = unassignedGuests s ∧
   rooms (unassign guest source s) = rooms s) ∧
  (source ≠ "unassigned" →
   ∀ (i : nat) (R : Room),
     rooms s !! i = Some R → room_id R = source → guest ∈ assigned R →
     NoDup (guest_id <$> assigned R) →
     unassignedGuests (unassign guest source s) = unassignedGuests s ++ [guest] ∧
     ∃ R', rooms (unassign guest source s) !! i = Some R' ∧
           room_frame R' = room_frame R ∧
           (guest ∉ assigned R') ∧
           currentOccupancy R' = currentOccupancy R - occupancy guest).
Proof.
  split_and!.
  - unfold unassign, handleDropToUnassigned.
    cbn [handleDragStart draggedGuest]. by case_bool_decide.
  - intros ->. done.
  - intros Hsrc i R Hi Hid Hin Hnd.
    destruct (handleDropToUnassigned_room (handleDragStart guest source s)
                guest source i R eq_refl Hsrc Hi Hid) as (Hpool & Hroom & _).
    split; [exact Hpool|].
    eexists. split_and!; [exact Hroom|done|apply remove_guest_not_elem|].
    unfold currentOccupancy. cbn [assigned with_assigned].
    by apply remove_guest_sum.
Qed.

Lemma unassign_returns_guest_to_pool_witness :
  let priya := {| guest_id := "2"; guest_name := "Priya Sharma"; occupancy := 1 |} in
  let s := commit demo_state (assign priya "unassigned" "r1" demo_state) in
  warning (unassign priya "r1" s) = None ∧
  unassignedGuests (unassign priya "r1" s) = unassignedGuests s ++ [priya] ∧
  currentOccupancy <$> rooms (unassign priya "r1" s) = [0; 0].
Proof.
  intros priya s.
  destruct (unassign_returns_guest_to_pool s priya "r1") as (Hw & _ & Hroom).
  split_and!; [exact Hw| |reflexivity].
  assert (Hsrc : "r1" ≠ "unassigned") by discriminate.
  refine (proj1 (Hroom Hsrc 0%nat
            {| room_id := "r1"; hotel := "The Grand Palace";
               room_type := "Deluxe Room"; capacity := 2; assigned := [priya] |}
            _ _ _ _)).
  - reflexivity.
  - reflexivity.
  - constructor.
  - simpl. apply NoDup_singleton.
Defined.

(** [unassign] does not lower the room's occupancy sum by the guest's
    occupancy in every state the page reaches.  After the drop of Priya
    Sharma's card on the room r1 it comes from, r1 holds her twice and its
    occupancy sum is 2; [unassign] filters by id and removes both entries,
    so the sum falls by 2 to 0 for a guest of occupancy 1, and the pool
    receives her once. *)
Theorem unassign_after_same_room_drop :
  let priya := {| guest_id := "2"; guest_name := "Priya Sharma"; occupancy := 1 |} in
  let s1 := commit demo_state (assign priya "unassigned" "r1" demo_state) in
  let s2 := commit s1 (assign priya "r1" "r1" s1) in
  let s3 := unassign priya "r1" s2 in
  located s2 priya "r1" ∧
  assigned <$> rooms s2 = [[priya; priya]; []] ∧
  currentOccupancy <$> rooms s2 = [2; 0] ∧
  assigned <$> rooms s3 = [[]; []] ∧
  currentOccupancy <$> rooms s3 = [0; 0] ∧
  unassignedGuests s3 = unassignedGuests s2 ++ [priya] ∧
  ¬ (∃ R R', rooms s2 !! 0%nat = Some R ∧ rooms s3 !! 0%nat = Some R' ∧
             currentOccupancy R' = currentOccupancy R - occupancy priya).
Proof.
  intros priya s1 s2 s3. split_and!; try reflexivity.
  - right. split; [discriminate|].
    exists {| room_id := "r1"; hotel := "The Grand Palace";
              room_type := "Deluxe Room"; capacity := 2;
              assigned := [priya; priya] |}.
    split_and!; [vm_compute; constructor|reflexivity|constructor].
  - intros (R & R' & HR & HR' & Hsum).
    vm_compute in HR, HR'. injection HR as <-. injection HR' as <-.
    vm_compute in Hsum. discriminate.
Qed.

(** C7. After [reset] every room's assigned list is empty and the pool is,
    as a multiset, the pool before the call together with all the rooms'
    assigned lists before the call: no guest is lost or duplicated.  (The
    source even fixes the order: the old pool, then the rooms' lists in
    room order.) *)
Theorem reset_collects_all_guests (s : State) :
  Forall (λ room, assigned room = []) (rooms (reset s)) ∧
  unassignedGuests (reset s) ≡ₚ
    unassignedGuests s ++ concat (assigned <$> rooms s) ∧
  unassignedGuests (reset s) =
    unassignedGuests s ++ concat (assigned <$> rooms s).
Proof.
  unfold reset. rewrite handleReset_unfold. cbn [rooms unassignedGuests].
  split_and!; [|done..].
  rewrite Forall_fmap. by apply Forall_true.
Qed.

(** C8. [reset] is idempotent: resetting twice gives the state, pool and
    rooms included, that resetting once gives; and that state has every
    room empty and all the guests of the start state, those of the pool
    followed by those of the rooms, in the unassigned pool. *)
Theorem reset_idempotent (s : State) :
  reset (reset s) = reset s ∧
  Forall (λ room, assigned room = []) (rooms (reset (reset s))) ∧
  unassignedGuests (reset (reset s)) =
    unassignedGuests s ++ concat (assigned <$> rooms s) ∧
  Forall (λ room, assigned room = []) (rooms (reset s)) ∧
  unassignedGuests (reset s) =
    unassignedGuests s ++ concat (assigned <$> rooms s) ∧
  room_frame <$> rooms (reset s) = room_frame <$> rooms s.
Proof.
  assert (Hidem : reset (reset s) = reset s).
  { unfold reset. rewrite (handleReset_unfold (handleReset s)).
    rewrite handleReset_guests. rewrite handleReset_unfold.
    cbn [rooms draggedGuest]. f_equal.
    rewrite <- list_fmap_compose. by apply list_fmap_ext. }
  assert (Hempty : Forall (λ room, assigned room = []) (rooms (reset s))).
  { unfold reset. rewrite handleReset_unfold. cbn [rooms].
    rewrite Forall_fmap. by apply Forall_true. }
  assert (Hpool : unassignedGuests (reset s) =
                  unassignedGuests s ++ concat (assigned <$> rooms s)).
  { unfold reset. by rewrite handleReset_unfold. }
  rewrite Hidem. split_and!; [done..|]. apply handleReset_frame.
Qed.

(** C10. Frame: every engine operation leaves the list of rooms with the
    same length and order, and each room with the same id, hotel, type and
    capacity; only the assigned lists and the pool change. *)
Theorem operations_keep_room_frame (s : State) (op : Op) :
  room_frame <$> rooms (step s op) = room_frame <$> rooms s ∧
  length (rooms (step s op)) = length (rooms s) ∧
  (∀ i room', rooms (step s op) !! i = Some room' →
     ∃ room, rooms s !! i = Some room ∧
             room' = with_assigned room (assigned room')).
Proof.
  assert (Hframe : room_frame <$> rooms (step s op) = room_frame <$> rooms s).
  { destruct op as [guest source targetRoomId|guest source| |]; cbn [step].
    - destruct (handleDropToRoom targetRoomId (handleDragStart guest source s))
        as [s'|] eqn:Hdrop; cbn [commit]; [|done].
      by rewrite (handleDropToRoom_frame _ _ _ Hdrop).
    - unfold unassign. by rewrite handleDropToUnassigned_frame.
    - apply handleAutoAssign_frame.
    - apply handleReset_frame. }
  split_and!; [done| |].
  - by rewrite <- (length_fmap room_frame), Hframe, length_fmap.
  - intros i room' Hi.
    assert (Hfi : (room_frame <$> rooms s) !! i = Some (room_frame room'))
      by (by rewrite <- Hframe, list_lookup_fmap, Hi).
    rewrite list_lookup_fmap in Hfi.
    destruct (rooms s !! i) as [room|]; [|done].
    exists room. split; [done|]. injection Hfi as Hfi.
    destruct room, room'. unfold room_frame, with_assigned in *. simpl in *.
    congruence.
Qed.

(** Conservation holds for every operation on a rendered card but the drop
    of a guest on the room it is dragged from. *)
Lemma step_conserves_guests (s : State) (op : Op) :
  NoDup (guest_id <$> all_guests s) → NoDup (room_id <$> rooms s) →
  op_rendered s op →
  (∀ guest source targetRoomId,
     op = OpAssign guest source targetRoomId → source ≠ targetRoomId) →
  all_guests (step s op) ≡ₚ all_guests s.
Proof.
  intros Hguests Hrooms Hop Hother.
  destruct op as [guest source targetRoomId|guest source| |]; cbn [step].
  - destruct Hop as [Hloc _].
    destruct (handleDropToRoom targetRoomId (handleDragStart guest source s))
      as [s'|] eqn:Hdrop; cbn [commit]; [|done].
    eapply (handleDropToRoom_conserves targetRoomId
              (handleDragStart guest source s) s' guest source);
      [reflexivity|exact Hguests|exact Hrooms|exact Hloc|by eapply Hother|exact Hdrop].
  - eapply (handleDropToUnassigned_conserves
              (handleDragStart guest source s) guest source);
      [reflexivity|exact Hguests|exact Hrooms|exact Hop].
  - apply handleAutoAssign_guests.
  - unfold reset. by rewrite handleReset_guests.
Qed.

(** Whenever the capacity check passes, a drop on the room the guest is
    dragged from leaves that room with its old list and the guest once
    more at the end: the removal written at [sourceRoomIndex] is
    overwritten at [targetRoomIndex], which is the same index. *)
Lemma assign_same_room_appends (s : State) (guest : Guest) (roomId : string)
    (i : nat) (room : Room) :
  list_find (λ r, room_id r = roomId) (rooms s) = Some (i, room) →
  guest ∈ assigned room →
  ¬ currentOccupancy room + occupancy guest > capacity room →
  ∃ s', assign guest roomId roomId s = Done s' ∧
        rooms s' !! i = Some (with_assigned room (assigned room ++ [guest])) ∧
        guest ∈ assigned room ++ [guest] ∧
        length (assigned room ++ [guest]) = S (length (assigned room)).
Proof.
  intros Hfind Hin Hfits.
  destruct (assign_accepted guest roomId roomId s i room Hfind Hfits)
    as (s' & Hassign & _ & _ & Hroom).
  exists s'. split_and!; [done|done| |].
  - apply elem_of_app. by left.
  - rewrite length_app. simpl. lia.
Qed.

(** C1. Conservation fails on the page's own start state: after Priya
    Sharma is assigned to room r1, dragging her card from r1 and dropping
    it on r1 again passes the capacity check (1 + 1 <= 2) and writes the
    target room from the copy read before the removal, so that r1 holds her
    twice; the guests of the state are no longer those it started with. *)
Theorem assign_same_room_duplicates :
  let priya := {| guest_id := "2"; guest_name := "Priya Sharma"; occupancy := 1 |} in
  let s1 := commit demo_state (assign priya "unassigned" "r1" demo_state) in
  let s2 := commit s1 (assign priya "r1" "r1" s1) in
  located demo_state priya "unassigned" ∧
  located s1 priya "r1" ∧
  NoDup (guest_id <$> all_guests s1) ∧
  assigned <$> rooms s1 = [[priya]; []] ∧
  assigned <$> rooms s2 = [[priya; priya]; []] ∧
  unassignedGuests s2 = unassignedGuests s1 ∧
  warning s2 = None ∧
  ¬ all_guests s2 ≡ₚ all_guests s1 ∧
  ¬ NoDup (guest_id <$> all_guests s2).
Proof.
  intros priya s1 s2. split_and!.
  - left. split; [reflexivity|]. vm_compute. do 1 constructor. constructor.
  - right. split; [discriminate|].
    exists {| room_id := "r1"; hotel := "The Grand Palace";
              room_type := "Deluxe Room"; capacity := 2; assigned := [priya] |}.
    split_and!; [vm_compute; constructor|reflexivity|constructor].
  - apply (bool_decide_unpack _). by vm_compute.
  - reflexivity.
  - reflexivity.
  - reflexivity.
  - reflexivity.
  - intros Hperm. apply Permutation_length in Hperm. vm_compute in Hperm. discriminate.
  - intros Hnd. apply (bool_decide_pack _) in Hnd. by vm_compute in Hnd.
Qed.

End RoomMappingProperties.

(** * Properties of the guest grouping *)

Section ManageGuestsProperties.
Import ManageGuests.

Lemma group_step_insert (acc : gmap string (list Guest)) (guest : Guest) :
  group_key guest ∉ inherited_names →
  group_step acc guest =
  Done (<[group_key guest := default [] (acc !! group_key guest) ++ [guest]]> acc).
Proof.
  intros Hkey. unfold group_step. rewrite bool_decide_eq_false_2 by done.
  destruct (acc !! group_key guest) as [group|] eqn:Hacc; simpl.
  - by erewrite alter_alt_Some.
  - by rewrite alter_insert_eq.
Qed.

Lemma groupedGuests_snoc (guests : list Guest) (guest : Guest) :
  groupedGuests (guests ++ [guest]) =
  match groupedGuests guests with
  | Done m => group_step m guest
  | TypeError => TypeError
  end.
Proof. unfold groupedGuests. by rewrite fold_left_app. Qed.

Lemma members_snoc (key : string) (guests : list Guest) (guest : Guest) :
  members key (guests ++ [guest]) =
  if decide (group_key guest = key)
  then members key guests ++ [guest] else members key guests.
Proof.
  unfold members. rewrite filter_app, filter_cons, filter_nil.
  destruct (decide _); [done|by rewrite app_nil_r].
Qed.

Lemma members_none (key : string) (guests : list Guest) :
  Forall (λ g, group_key g ≠ key) guests → members key guests = [].
Proof.
  unfold members. induction 1 as [|g l Hg _ IH]; [done|].
  by rewrite filter_cons, decide_False.
Qed.

Lemma groups_insert_perm (m : gmap string (list Guest)) (key : string)
    (guest : Guest) :
  concat (map_to_list (<[key := default [] (m !! key) ++ [guest]]> m)).*2
  ≡ₚ concat (map_to_list m).*2 ++ [guest].
Proof.
  destruct (m !! key) as [group|] eqn:Hm; simpl.
  - rewrite <- (insert_delete_eq m).
    rewrite map_to_list_insert by apply lookup_delete_eq.
    rewrite <- (map_to_list_delete m key group Hm).
    rewrite !fmap_cons, !concat_cons. simpl. by rewrite <- !app_assoc, (Permutation_app_comm [guest]).
  - rewrite map_to_list_insert by done.
    rewrite fmap_cons, concat_cons. simpl. by rewrite <- Permutation_cons_append.
Qed.

Lemma groupedGuests_lookup (guests : list Guest) :
  Forall (λ g, group_key g ∉ inherited_names) guests →
  ∃ groups,
    groupedGuests guests = Done groups ∧
    (∀ key, groups !! key =
            if decide (members key guests = []) then None
            else Some (members key guests)) ∧
    concat (guestGroups groups) ≡ₚ guests.
Proof.
  induction guests as [|guest guests IH] using rev_ind; intros Hkeys.
  - exists ∅. split_and!; [reflexivity| |].
    + intros key. rewrite lookup_empty, decide_True; reflexivity.
    + unfold guestGroups. by rewrite map_to_list_empty.
  - apply Forall_app in Hkeys as [Hkeys Hguest].
    rewrite Forall_singleton in Hguest.
    destruct (IH Hkeys) as (m & Hm & Hlookup & Hperm).
    rewrite groupedGuests_snoc, Hm, group_step_insert by done.
    eexists. split_and!; [reflexivity| |].
    + intros key. rewrite lookup_insert, members_snoc.
      destruct (decide (group_key guest = key)) as [->|Hne].
      * rewrite Hlookup.
        destruct (decide (members key guests = [])) as [Hnil|Hcons];
          simpl; rewrite ?Hnil; simpl.
        -- done.
        -- rewrite decide_False; [done|]. by destruct (members key guests).
      * apply Hlookup.
    + unfold guestGroups in *. by rewrite groups_insert_perm, Hperm.
Qed.

Lemma elem_of_guestGroups (groups : gmap string (list Guest)) (group : list Guest) :
  group ∈ guestGroups groups ↔ ∃ key, groups !! key = Some group.
Proof.
  unfold guestGroups. rewrite list_elem_of_fmap. split.
  - intros ([key group'] & -> & Hin). exists key. by apply elem_of_map_to_list.
  - intros [key Hkey]. exists (key, group). split; [done|].
    by apply elem_of_map_to_list.
Qed.

(** Away from the names inherited from [Object.prototype] the view
    partitions the fetched guests into groups keyed by the family
    identifier, or by the guest's own identifier when the family identifier
    is absent: the group of a key is the guests with that key in fetch
    order; each guest is in the group of its key and in no other; the
    groups together hold exactly the fetched guests; a guest without family
    identifier whose identifier is nobody else's key forms a group of its
    own; and each group is rendered as its first member followed by the
    remaining members as nested rows. *)
Theorem groupedGuests_partition (guests : list Guest) :
  Forall (λ g, group_key g ∉ inherited_names) guests →
  ∃ groups,
    groupedGuests guests = Done groups ∧
    (∀ g, FamilyID g = "" → group_key g = ID g) ∧
    (∀ g, FamilyID g ≠ "" → group_key g = FamilyID g) ∧
    (∀ key group,
       groups !! key = Some group ↔ group = members key guests ∧ group ≠ []) ∧
    (∀ g, g ∈ guests →
          ∃ group, groups !! group_key g = Some group ∧ g ∈ group) ∧
    (∀ g key group,
       groups !! key = Some group → g ∈ group → key = group_key g) ∧
    concat (guestGroups groups) ≡ₚ guests ∧
    (∀ group, group ∈ guestGroups groups → group `sublist_of` guests) ∧
    (∀ l1 g l2,
       guests = l1 ++ g :: l2 → FamilyID g = "" →
       Forall (λ g', group_key g' ≠ ID g) (l1 ++ l2) →
       groups !! ID g = Some [g]) ∧
    (∀ group, group ∈ guestGroups groups →
              ∃ head, headGuest group = Some head ∧
                      group = head :: otherMembers group).
Proof.
  intros Hkeys.
  destruct (groupedGuests_lookup guests Hkeys) as (groups & Hgroups & Hlookup & Hperm).
  assert (Hgroup : ∀ key group,
            groups !! key = Some group ↔ group = members key guests ∧ group ≠ []).
  { intros key group. rewrite Hlookup.
    destruct (decide (members key guests = [])) as [Hnil|Hcons].
    - split; [done|]. intros [-> Hne]. done.
    - split; [by intros [= <-]|]. by intros [-> _]. }
  exists groups. split_and!; try done.
  - intros g Hg. unfold group_key. by rewrite bool_decide_eq_true_2.
  - intros g Hg. unfold group_key. by rewrite bool_decide_eq_false_2.
  - intros g Hin. exists (members (group_key g) guests).
    assert (g ∈ members (group_key g) guests) as Hmem
      by (by apply list_elem_of_filter).
    split; [|done]. apply Hgroup. split; [done|].
    intros Hnil. rewrite Hnil in Hmem. by apply elem_of_nil in Hmem.
  - intros g key group Hkey Hin. apply Hgroup in Hkey as [-> _].
    apply list_elem_of_filter in Hin as [Hk _]. done.
  - intros group [key Hkey]%elem_of_guestGroups.
    apply Hgroup in Hkey as [-> _]. apply sublist_filter.
  - intros l1 g l2 -> Hfam Hothers. apply Hgroup.
    assert (Hkey : group_key g = ID g)
      by (unfold group_key; by rewrite bool_decide_eq_true_2).
    unfold members. rewrite filter_app, filter_cons, decide_True by done.
    apply Forall_app in Hothers as [H1 H2].
    fold (members (ID g) l1). fold (members (ID g) l2).
    by rewrite !members_none.
  - intros group [key Hkey]%elem_of_guestGroups.
    apply Hgroup in Hkey as [_ Hne].
    destruct group as [|head rest]; [done|]. exists head. done.
Qed.

Lemma groupedGuests_partition_witness :
  let asha := mkGuest "1" "Asha Rao" 41 adult "" "" "e1" "F1" "" "" in
  let ravi := mkGuest "2" "Ravi Rao" 9 child "" "" "e1" "F1" "" "" in
  let meera := mkGuest "3" "Meera Nair" 35 adult "" "" "e1" "" "" "" in
  ∃ groups,
    groupedGuests [asha; meera; ravi] = Done groups ∧
    groups !! "F1" = Some [asha; ravi] ∧
    groups !! "3" = Some [meera] ∧
    concat (guestGroups groups) ≡ₚ [asha; meera; ravi].
Proof.
  intros asha ravi meera.
  assert (Hkeys : Forall (λ g, group_key g ∉ inherited_names) [asha; meera; ravi]).
  { apply (bool_decide_unpack _). vm_compute. exact I. }
  destruct (groupedGuests_partition [asha; meera; ravi] Hkeys)
    as (groups & Hgroups & _ & _ & Hgroup & _ & _ & Hperm & _).
  exists groups. split_and!; [exact Hgroups| | |exact Hperm].
  - apply Hgroup. split; [reflexivity|discriminate].
  - apply Hgroup. split; [reflexivity|discriminate].
Defined.

(** C9. The grouping is not defined on every fetched guest list: for a
    guest whose family identifier names a property that the accumulator
    [{}] inherits from [Object.prototype], here [constructor], [acc[key]]
    is truthy before any group exists, no array is created for the key, and
    [acc[key].push(guest)] stops the reduce on a [TypeError]; no group is
    formed for that guest.  On every other list the guests are partitioned
    by key, in fetch order ([groupedGuests_partition]). *)
Theorem groupedGuests_inherited_key :
  let asha := mkGuest "1" "Asha Rao" 41 adult "" "" "e1" "constructor" "" "" in
  group_key asha = "constructor" ∧
  groupedGuests [asha] = TypeError ∧
  ∀ before after, groupedGuests (before ++ asha :: after) = TypeError.
Proof.
  intros asha. split_and!; [reflexivity..|].
  intros before after. unfold groupedGuests. rewrite fold_left_app. cbn [fold_left].
  assert (Hstep : ∀ acc,
            match acc with
            | Done m => group_step m asha
            | TypeError => TypeError
            end = TypeError) by (by intros []).
  rewrite Hstep. clear. induction after as [|g after IH]; [done|]. exact IH.
Qed.

End ManageGuestsProperties.

(** * Further properties of the room mapping page *)

Section RoomMappingGestures.
Import RoomMapping.

(** ** Drops with and without a pending drag *)

(** X1. A drop on a room stops on a [TypeError] exactly when a drag is
    pending and no room has the target id; a drop on the drop zone of a
    room of the state therefore never throws. *)
Theorem handleDropToRoom_throws_iff (targetRoomId : string) (s : State) :
  (handleDropToRoom targetRoomId s = TypeError ↔
   is_Some (draggedGuest s) ∧
   ∀ room, room ∈ rooms s → room_id room ≠ targetRoomId) ∧
  (∀ room, room ∈ rooms s → handleDropToRoom (room_id room) s ≠ TypeError).
Proof.
  assert (Hiff : ∀ tgt,
    handleDropToRoom tgt s = TypeError ↔
    is_Some (draggedGuest s) ∧ ∀ room, room ∈ rooms s → room_id room ≠ tgt).
  { intros tgt. unfold handleDropToRoom.
    destruct (draggedGuest s) as [[guest source]|].
    - destruct (list_find (λ r, room_id r = tgt) (rooms s)) as [[ti tr]|] eqn:Hfind.
      + apply list_find_elem in Hfind as (_ & Hin & Hid).
        split.
        * case_bool_decide; [done|].
          case_bool_decide;
            [destruct (list_find (λ r, room_id r = source) (rooms s)) as [[si sr]|]|];
            done.
        * intros [_ Hnone]. by destruct (Hnone tr Hin).
      + split; [|done]. intros _. split; [by eexists|].
        apply list_find_None in Hfind. by rewrite Forall_forall in Hfind.
    - split; [done|]. by intros [[? [=]] _]. }
  split; [apply Hiff|].
  intros room Hin Hthrow. apply Hiff in Hthrow as [_ Hnone].
  by apply (Hnone room).
Qed.

(** X2. A drop on a room that returns has cleared the pending drag, so
    that a further drop, on any room or on the pool, without a new drag
    changes nothing. *)
Theorem handleDropToRoom_clears_drag (targetRoomId : string) (s s' : State) :
  handleDropToRoom targetRoomId s = Done s' →
  draggedGuest s' = None ∧
  (∀ other, handleDropToRoom other s' = Done s') ∧
  handleDropToUnassigned s' = s'.
Proof.
  intros Hdrop.
  assert (Hnone : draggedGuest s' = None).
  { revert Hdrop. unfold handleDropToRoom.
    destruct (draggedGuest s) as [[guest source]|] eqn:Hdrag;
      [|by intros [= <-]].
    destruct (list_find (λ r, room_id r = targetRoomId) (rooms s)) as [[ti tr]|];
      [|done].
    case_bool_decide; [by intros [= <-]|].
    case_bool_decide;
      [destruct (list_find (λ r, room_id r = source) (rooms s)) as [[si sr]|]|];
      by intros [= <-]. }
  split_and!; [done| |].
  - intros other. unfold handleDropToRoom. by rewrite Hnone.
  - unfold handleDropToUnassigned. by rewrite Hnone.
Qed.

Lemma handleDropToRoom_clears_drag_witness :
  let priya := {| guest_id := "2"; guest_name := "Priya Sharma"; occupancy := 1 |} in
  let s' := commit demo_state (assign priya "unassigned" "r1" demo_state) in
  draggedGuest s' = None ∧
  (∀ other, handleDropToRoom other s' = Done s') ∧
  handleDropToUnassigned s' = s'.
Proof.
  intros priya s'.
  apply (handleDropToRoom_clears_drag "r1"
           (handleDragStart priya "unassigned" demo_state) s').
  vm_compute. reflexivity.
Defined.

(** X3. A drop on the pool of a guest dragged from the pool clears the
    pending drag.  A drop on the pool of a guest dragged from a room leaves
    the drag pending: a second drop event without a new drag appends the
    guest to the pool once more. *)
Theorem handleDropToUnassigned_pending_drag (s : State) (guest : Guest)
    (source : string) :
  draggedGuest s = Some (guest, source) →
  (source = "unassigned" →
   draggedGuest (handleDropToUnassigned s) = None ∧
   handleDropToUnassigned (handleDropToUnassigned s) = handleDropToUnassigned s) ∧
  (source ≠ "unassigned" →
   draggedGuest (handleDropToUnassigned s) = Some (guest, source) ∧
   unassignedGuests (handleDropToUnassigned (handleDropToUnassigned s)) =
     unassignedGuests s ++ [guest; guest]).
Proof.
  intros Hdrag. split; intros Hsrc.
  - assert (Hfirst : handleDropToUnassigned s =
      {| unassignedGuests := unassignedGuests s;
         rooms := rooms s;
         draggedGuest := None;
         warning := warning s |}).
    { unfold handleDropToUnassigned. rewrite Hdrag.
      by rewrite bool_decide_eq_true_2. }
    rewrite Hfirst. done.
  - assert (Hfirst : handleDropToUnassigned s =
      {| unassignedGuests := unassignedGuests s ++ [guest];
         rooms := (λ room, if bool_decide (room_id room = source)
                           then with_assigned room (remove_guest guest (assigned room))
                           else room) <$> rooms s;
         draggedGuest := Some (guest, source);
         warning := None |}).
    { unfold handleDropToUnassigned. rewrite Hdrag.
      by rewrite bool_decide_eq_false_2. }
    rewrite Hfirst. split; [done|].
    unfold handleDropToUnassigned. cbn [draggedGuest].
    rewrite bool_decide_eq_false_2 by done. cbn [unassignedGuests].
    by rewrite <- app_assoc.
Qed.

Lemma handleDropToUnassigned_pending_drag_witness :
  let priya := {| guest_id := "2"; guest_name := "Priya Sharma"; occupancy := 1 |} in
  let s1 := commit demo_state (assign priya "unassigned" "r1" demo_state) in
  let s2 := handleDragStart priya "r1" s1 in
  draggedGuest (handleDropToUnassigned s2) = Some (priya, "r1") ∧
  unassignedGuests (handleDropToUnassigned (handleDropToUnassigned s2)) =
    unassignedGuests s2 ++ [priya; priya].
Proof.
  intros priya s1 s2.
  refine (proj2 (handleDropToUnassigned_pending_drag s2 priya "r1" _) _).
  - reflexivity.
  - discriminate.
Defined.

(** ** The full badge and the capacity check *)

(** X4. The room is rendered as full exactly when the capacity check
    rejects a guest of occupancy 1; a full room rejects every guest of
    positive occupancy. *)
Theorem isFull_rejects (s : State) (targetRoomId : string) (i : nat) (room : Room) :
  list_find (λ r, room_id r = targetRoomId) (rooms s) = Some (i, room) →
  (isFull room = true →
   ∀ guest source, 0 < occupancy guest →
     ∃ s', assign guest source targetRoomId s = Done s' ∧
           warning s' = Some (capacity_warning guest room) ∧
           rooms s' = rooms s ∧ unassignedGuests s' = unassignedGuests s) ∧
  (isFull room = false →
   ∀ guest source, occupancy guest = 1 →
     ∃ s', assign guest source targetRoomId s = Done s' ∧ warning s' = None).
Proof.
  intros Hfind. unfold isFull. split.
  - intros Hfull%bool_decide_eq_true guest source Hpos.
    eexists. split; [apply (assign_rejected _ _ _ _ _ _ Hfind); lia|done].
  - intros Hfree%bool_decide_eq_false guest source Hone.
    destruct (assign_accepted guest source _ _ _ _ Hfind) as (s' & Hs' & Hw & _);
      [lia|eauto].
Qed.

Lemma isFull_rejects_witness :
  let amit := {| guest_id := "3"; guest_name := "Amit Patel"; occupancy := 3 |} in
  let priya := {| guest_id := "2"; guest_name := "Priya Sharma"; occupancy := 1 |} in
  let s := commit demo_state (assign amit "unassigned" "r2" demo_state) in
  ∃ s', assign priya "unassigned" "r2" s = Done s' ∧ is_Some (warning s').
Proof.
  intros amit priya s.
  destruct (proj1 (isFull_rejects s "r2" 1%nat
              {| room_id := "r2"; hotel := "The Grand Palace";
                 room_type := "Premium Suite"; capacity := 3; assigned := [amit] |}
              eq_refl) eq_refl priya "unassigned") as (s' & Hs' & Hw & _).
  - vm_compute. reflexivity.
  - exists s'. split; [exact Hs'|]. rewrite Hw. by eexists.
Defined.

(** ** Moving a guest *)

Lemma with_assigned_id (room : Room) :
  with_assigned room (assigned room) = room.
Proof. by destruct room. Qed.

Lemma absent_from_room (guest : Guest) (l : list Room) (room : Room) :
  guest_id guest ∉ guest_id <$> concat (assigned <$> l) → room ∈ l →
  guest_id guest ∉ guest_id <$> assigned room.
Proof.
  intros Hnot Hroom Hin. apply Hnot.
  apply list_elem_of_fmap in Hin as (g & Hid & Hg).
  apply list_elem_of_fmap. exists g. split; [done|].
  apply elem_of_concat. exists (assigned room). split; [|done].
  by apply list_elem_of_fmap_2.
Qed.

(** X5. An accepted drop of a guest dragged from one room on another room
    leaves the pool and all other rooms as they were, filters the guest out
    of the source room and appends it to the target room; the source room's
    occupancy sum falls by the guest's occupancy and the target room's
    rises by it. *)
Theorem assign_moves_between_rooms (s : State) (guest : Guest)
    (source targetRoomId : string) (si ti : nat) (sr tr : Room) :
  source ≠ "unassigned" → source ≠ targetRoomId →
  list_find (λ r, room_id r = source) (rooms s) = Some (si, sr) →
  list_find (λ r, room_id r = targetRoomId) (rooms s) = Some (ti, tr) →
  guest ∈ assigned sr → NoDup (guest_id <$> assigned sr) →
  ¬ currentOccupancy tr + occupancy guest > capacity tr →
  ∃ s' sr' tr',
    assign guest source targetRoomId s = Done s' ∧
    unassignedGuests s' = unassignedGuests s ∧
    rooms s' !! si = Some sr' ∧ rooms s' !! ti = Some tr' ∧
    (∀ j, j ≠ si → j ≠ ti → rooms s' !! j = rooms s !! j) ∧
    (guest ∉ assigned sr') ∧
    assigned tr' = assigned tr ++ [guest] ∧
    currentOccupancy sr' = currentOccupancy sr - occupancy guest ∧
    currentOccupancy tr' = currentOccupancy tr + occupancy guest.
Proof.
  intros Hsrc Hne Hfs Hft Hin Hnd Hfits.
  exists {| unassignedGuests := unassignedGuests s;
            rooms := <[ti := with_assigned tr (assigned tr ++ [guest])]>
                       (<[si := with_assigned sr (remove_guest guest (assigned sr))]>
                          (rooms s));
            draggedGuest := None; warning := None |},
    (with_assigned sr (remove_guest guest (assigned sr))),
    (with_assigned tr (assigned tr ++ [guest])).
  pose proof (list_find_elem _ _ _ _ Hfs) as (Hsi & _ & Hsid).
  pose proof (list_find_elem _ _ _ _ Hft) as (Hti & _ & Htid).
  assert (si ≠ ti) as Hidx by (intros ->; congruence).
  pose proof (lookup_lt_Some _ _ _ Hsi) as Hsl.
  pose proof (lookup_lt_Some _ _ _ Hti) as Htl.
  split_and!.
  - unfold assign, handleDropToRoom.
    cbn [handleDragStart draggedGuest rooms unassignedGuests].
    rewrite Hft, bool_decide_eq_false_2 by done.
    by rewrite bool_decide_eq_true_2, Hfs by done.
  - done.
  - cbn [rooms]. rewrite list_lookup_insert_ne by done.
    by apply list_lookup_insert_eq.
  - cbn [rooms]. apply list_lookup_insert_eq. by rewrite length_insert.
  - intros j Hjs Hjt. cbn [rooms]. by rewrite !list_lookup_insert_ne.
  - apply remove_guest_not_elem.
  - done.
  - unfold currentOccupancy. cbn [assigned with_assigned]. by apply remove_guest_sum.
  - unfold currentOccupancy. cbn [assigned with_assigned].
    rewrite occupancy_sum_app, occupancy_sum_cons, occupancy_sum_nil. lia.
Qed.

Lemma assign_moves_between_rooms_witness :
  let priya := {| guest_id := "2"; guest_name := "Priya Sharma"; occupancy := 1 |} in
  let s := commit demo_state (assign priya "unassigned" "r1" demo_state) in
  ∃ s', assign priya "r1" "r2" s = Done s' ∧
        currentOccupancy <$> rooms s' = [0; 1].
Proof.
  intros priya s.
  destruct (assign_moves_between_rooms s priya "r1" "r2" 0%nat 1%nat
              {| room_id := "r1"; hotel := "The Grand Palace";
                 room_type := "Deluxe Room"; capacity := 2; assigned := [priya] |}
              {| room_id := "r2"; hotel := "The Grand Palace";
                 room_type := "Premium Suite"; capacity := 3; assigned := [] |})
    as (s' & sr' & tr' & Hs' & _).
  - discriminate.
  - discriminate.
  - reflexivity.
  - reflexivity.
  - constructor.
  - simpl. apply NoDup_singleton.
  - vm_compute. discriminate.
  - exists s'. split; [exact Hs'|].
    vm_compute in Hs'. injection Hs' as <-. reflexivity.
Defined.

(** X6. Round trip: assigning a guest that is in no room from the pool to
    a room and unassigning it again restores every room exactly; the guest
    has moved to the end of the pool. *)
Theorem assign_unassign_round_trip (s : State) (guest : Guest)
    (targetRoomId : string) (ti : nat) (tr : Room) :
  targetRoomId ≠ "unassigned" →
  list_find (λ r, room_id r = targetRoomId) (rooms s) = Some (ti, tr) →
  guest_id guest ∉ guest_id <$> concat (assigned <$> rooms s) →
  ¬ currentOccupancy tr + occupancy guest > capacity tr →
  ∃ s1,
    assign guest "unassigned" targetRoomId s = Done s1 ∧
    rooms (unassign guest targetRoomId s1) = rooms s ∧
    unassignedGuests (unassign guest targetRoomId s1) =
      remove_guest guest (unassignedGuests s) ++ [guest] ∧
    (NoDup (guest_id <$> unassignedGuests s) → guest ∈ unassignedGuests s →
     unassignedGuests (unassign guest targetRoomId s1) ≡ₚ unassignedGuests s).
Proof.
  intros Htgt Hft Habsent Hfits.
  pose proof (list_find_elem _ _ _ _ Hft) as (Hti & Htin & Htid).
  exists {| unassignedGuests := remove_guest guest (unassignedGuests s);
            rooms := <[ti := with_assigned tr (assigned tr ++ [guest])]> (rooms s);
            draggedGuest := None; warning := None |}.
  assert (Hpool : ∀ s1, unassignedGuests s1 = remove_guest guest (unassignedGuests s) →
            unassignedGuests (unassign guest targetRoomId s1) =
            remove_guest guest (unassignedGuests s) ++ [guest]).
  { intros s1 Hs1. unfold unassign, handleDropToUnassigned.
    cbn [handleDragStart draggedGuest unassignedGuests rooms].
    rewrite bool_decide_eq_false_2 by done. cbn [unassignedGuests]. by rewrite Hs1. }
  split_and!.
  - unfold assign, handleDropToRoom.
    cbn [handleDragStart draggedGuest rooms unassignedGuests].
    rewrite Hft, bool_decide_eq_false_2 by done.
    by rewrite bool_decide_eq_false_2 by (by intros []).
  - unfold unassign, handleDropToUnassigned.
    cbn [handleDragStart draggedGuest unassignedGuests rooms].
    rewrite bool_decide_eq_false_2 by done. cbn [rooms].
    rewrite list_fmap_insert. cbn beta.
    rewrite bool_decide_eq_true_2 by done. cbn [assigned with_assigned].
    assert (Hback : remove_guest guest (assigned tr ++ [guest]) = assigned tr).
    { unfold remove_guest. rewrite filter_app, filter_cons, filter_nil.
      rewrite decide_False by (by intros []). rewrite app_nil_r.
      apply remove_guest_absent. by eapply absent_from_room. }
    rewrite Hback.
    assert (Hsame :
      (λ room, if bool_decide (room_id room = targetRoomId)
               then with_assigned room (remove_guest guest (assigned room))
               else room) <$> rooms s = rooms s).
    { rewrite <- (list_fmap_id (rooms s)) at 2. apply list_fmap_ext.
      intros j room Hj. simpl. case_bool_decide; [|done].
      rewrite remove_guest_absent; [apply with_assigned_id|].
      eapply absent_from_room; [done|]. by eapply list_elem_of_lookup_2. }
    rewrite Hsame. apply list_insert_id.
    rewrite Hti. f_equal. by destruct tr.
  - by apply Hpool.
  - intros Hnd Hin. rewrite Hpool by done.
    rewrite <- (remove_guest_perm guest (unassignedGuests s)) at 2 by done.
    by rewrite <- Permutation_cons_append.
Qed.

Lemma assign_unassign_round_trip_witness :
  let priya := {| guest_id := "2"; guest_name := "Priya Sharma"; occupancy := 1 |} in
  ∃ s1, assign priya "unassigned" "r1" demo_state = Done s1 ∧
        rooms (unassign priya "r1" s1) = rooms demo_state.
Proof.
  intros priya.
  destruct (assign_unassign_round_trip demo_state priya "r1" 0%nat
              {| room_id := "r1"; hotel := "The Grand Palace";
                 room_type := "Deluxe Room"; capacity := 2; assigned := [] |})
    as (s1 & Hs1 & Hrooms & _).
  - discriminate.
  - reflexivity.
  - vm_compute. apply not_elem_of_nil.
  - vm_compute. discriminate.
  - exists s1. by split.
Defined.

(** ** What one pass of [handleAutoAssign] leaves *)

Lemma scan_guests_sublist (roomSpace : Z) (l : list Guest) :
  (scan_guests roomSpace l).1 `sublist_of` l ∧
  (scan_guests roomSpace l).2 `sublist_of` l.
Proof.
  revert roomSpace. induction l as [|g l IH]; intros sp; simpl; [done|].
  case_bool_decide; [destruct (IH (sp - occupancy g)) as [Ha Hc]
                    |destruct (IH sp) as [Ha Hc]];
    destruct (scan_guests _ l) as [added carried]; simpl in *;
    split; by (apply sublist_skip || apply sublist_cons).
Qed.

(** A guest carried forward did not fit when it was scanned, and the room
    space has only shrunk since. *)
Lemma scan_guests_carried (roomSpace : Z) (l : list Guest) :
  Forall (λ g, 0 ≤ occupancy g) l →
  Forall (λ g, roomSpace - occupancy_sum (scan_guests roomSpace l).1 < occupancy g)
    (scan_guests roomSpace l).2.
Proof.
  intros Hnonneg. revert roomSpace.
  induction Hnonneg as [|g l Hg Hl IH]; intros sp; simpl; [constructor|].
  case_bool_decide as Hfit.
  - specialize (IH (sp - occupancy g)).
    destruct (scan_guests _ l) as [added carried]; simpl in *.
    rewrite occupancy_sum_cons.
    eapply Forall_impl; [exact IH|]. intros g' Hg'. simpl in Hg'. lia.
  - pose proof (proj1 (scan_guests_Forall _ sp l Hl)) as Hadded.
    apply occupancy_sum_nonneg in Hadded.
    specialize (IH sp).
    destruct (scan_guests _ l) as [added carried]; simpl in *.
    constructor; [lia|done].
Qed.

Lemma scan_guests_none_fit (roomSpace : Z) (l : list Guest) :
  Forall (λ g, roomSpace < occupancy g) l → scan_guests roomSpace l = ([], l).
Proof.
  induction 1 as [|g l Hg _ IH]; [done|].
  simpl. rewrite bool_decide_eq_false_2 by lia. by rewrite IH.
Qed.

Lemma fill_rooms_final_sublist (rs : list Room) (remaining : list Guest) :
  (fill_rooms rs remaining).2 `sublist_of` remaining.
Proof.
  revert remaining. induction rs as [|room rs IH]; intros remaining; [done|].
  cbn [fill_rooms]. case_bool_decide.
  - destruct (scan_guests_sublist (capacity room - currentOccupancy room) remaining)
      as [_ Hcarried].
    destruct (scan_guests _ remaining) as [added carried].
    specialize (IH carried). destruct (fill_rooms rs carried) as [rest' final].
    simpl in *. by etrans.
  - specialize (IH remaining). by destruct (fill_rooms rs remaining).
Qed.

Lemma fill_rooms_maximal (rs : list Room) (remaining : list Guest) :
  Forall (λ g, 0 < occupancy g) remaining →
  Forall (λ room,
    Forall (λ g, currentOccupancy room + occupancy g > capacity room)
      (fill_rooms rs remaining).2)
    (fill_rooms rs remaining).1.
Proof.
  revert remaining. induction rs as [|room rs IH]; intros remaining Hpos;
    [constructor|].
  cbn [fill_rooms]. case_bool_decide as Hspace.
  - assert (Hnonneg : Forall (λ g, 0 ≤ occupancy g) remaining)
      by (eapply Forall_impl; [exact Hpos|]; simpl; intros; lia).
    pose proof (scan_guests_carried (capacity room - currentOccupancy room)
                  remaining Hnonneg) as Hcarried.
    pose proof (proj2 (scan_guests_Forall _
                  (capacity room - currentOccupancy room) remaining Hpos)) as Hpos'.
    destruct (scan_guests _ remaining) as [added carried].
    specialize (IH carried Hpos').
    pose proof (fill_rooms_final_sublist rs carried) as Hsub.
    destruct (fill_rooms rs carried) as [rest' final]. simpl in *.
    constructor; [|done].
    rewrite Forall_forall. intros g Hg.
    assert (g ∈ carried) as Hgc by (by apply (sublist_subseteq _ _ Hsub)).
    rewrite Forall_forall in Hcarried. specialize (Hcarried g Hgc).
    unfold currentOccupancy in *. cbn [assigned capacity with_assigned].
    rewrite occupancy_sum_app. lia.
  - specialize (IH remaining Hpos).
    pose proof (fill_rooms_final_sublist rs remaining) as Hsub.
    destruct (fill_rooms rs remaining) as [rest' final]. simpl in *.
    constructor; [|done].
    rewrite Forall_forall. intros g Hg.
    assert (g ∈ remaining) as Hgr by (by apply (sublist_subseteq _ _ Hsub)).
    rewrite Forall_forall in Hpos. specialize (Hpos g Hgr). simpl in Hpos. lia.
Qed.

Lemma fill_rooms_fixed (rs : list Room) (remaining : list Guest) :
  Forall (λ room,
    Forall (λ g, currentOccupancy room + occupancy g > capacity room) remaining) rs →
  fill_rooms rs remaining = (rs, remaining).
Proof.
  induction 1 as [|room rs Hroom _ IH]; [done|].
  cbn [fill_rooms]. case_bool_decide.
  - rewrite scan_guests_none_fit.
    + by rewrite IH, with_assigned_same.
    + eapply Forall_impl; [exact Hroom|]. simpl. intros; lia.
  - by rewrite IH.
Qed.

Lemma fill_rooms_appends (rs : list Room) (remaining : list Guest) :
  Forall2 (λ room room',
    ∃ added, room' = with_assigned room (assigned room ++ added) ∧
             added `sublist_of` remaining)
    rs (fill_rooms rs remaining).1.
Proof.
  revert remaining. induction rs as [|room rs IH]; intros remaining;
    [constructor|].
  cbn [fill_rooms]. case_bool_decide.
  - destruct (scan_guests_sublist (capacity room - currentOccupancy room) remaining)
      as [Hadded Hcarried].
    destruct (scan_guests _ remaining) as [added carried].
    specialize (IH carried). destruct (fill_rooms rs carried) as [rest' final].
    simpl in *. constructor; [by eauto|].
    eapply Forall2_impl; [exact IH|].
    intros r r' (a & -> & Ha). exists a. split; [done|]. by etrans.
  - specialize (IH remaining). destruct (fill_rooms rs remaining) as [rest' final].
    simpl in *. constructor; [|done].
    exists []. split; [by rewrite with_assigned_same|apply sublist_nil_l].
Qed.

Lemma handleAutoAssign_eq (s : State) :
  handleAutoAssign s =
  {| unassignedGuests := (fill_rooms (rooms s) (unassignedGuests s)).2;
     rooms := (fill_rooms (rooms s) (unassignedGuests s)).1;
     draggedGuest := draggedGuest s;
     warning :=
       if bool_decide
            (length (fill_rooms (rooms s) (unassignedGuests s)).2 = 0%nat)
       then None else warning s |}.
Proof.
  unfold handleAutoAssign.
  change (imap pair (rooms s))
    with (imap (λ i r, (length (@nil Room) + i, r)%nat) (rooms s)).
  change (rooms s, unassignedGuests s)
    with ([] ++ rooms s, unassignedGuests s).
  rewrite fill_rooms_fold. by destruct (fill_rooms _ _).
Qed.

(** X7. After [autoAssign] on a pool of guests of positive occupancy no
    guest left in the pool fits in any room: the capacity check rejects
    the assignment of every remaining guest to every room. *)
Theorem autoAssign_leaves_no_fit (s : State) :
  Forall (λ g, 0 < occupancy g) (unassignedGuests s) →
  (∀ room guest,
     room ∈ rooms (autoAssign s) → guest ∈ unassignedGuests (autoAssign s) →
     currentOccupancy room + occupancy guest > capacity room) ∧
  (∀ room guest source,
     room ∈ rooms (autoAssign s) → guest ∈ unassignedGuests (autoAssign s) →
     ∃ s' w, assign guest source (room_id room) (autoAssign s) = Done s' ∧
             warning s' = Some w ∧
             rooms s' = rooms (autoAssign s) ∧
             unassignedGuests s' = unassignedGuests (autoAssign s)).
Proof.
  intros Hpos.
  assert (Hmax : ∀ room guest,
    room ∈ rooms (autoAssign s) → guest ∈ unassignedGuests (autoAssign s) →
    currentOccupancy room + occupancy guest > capacity room).
  { unfold autoAssign. destruct (handleAutoAssign_unfold s) as [-> ->].
    pose proof (fill_rooms_maximal (rooms s) (unassignedGuests s) Hpos) as Hall.
    intros room guest Hroom Hguest.
    rewrite Forall_forall in Hall. specialize (Hall room Hroom).
    rewrite Forall_forall in Hall. by apply Hall. }
  split; [exact Hmax|].
  intros room guest source Hroom Hguest.
  destruct (list_find (λ r, room_id r = room_id room) (rooms (autoAssign s)))
    as [[i first]|] eqn:Hfind.
  - pose proof (list_find_elem _ _ _ _ Hfind) as (_ & Hfirst & _).
    do 2 eexists.
    split; [apply (assign_rejected _ _ _ _ _ _ Hfind); by apply Hmax|done].
  - apply list_find_None in Hfind. rewrite Forall_forall in Hfind.
    by destruct (Hfind room Hroom).
Qed.

Lemma autoAssign_leaves_no_fit_witness :
  let amit := {| guest_id := "3"; guest_name := "Amit Patel"; occupancy := 3 |} in
  let priya := {| guest_id := "2"; guest_name := "Priya Sharma"; occupancy := 1 |} in
  let sneha := {| guest_id := "4"; guest_name := "Sneha Reddy"; occupancy := 2 |} in
  let suite := {| room_id := "r2"; hotel := "The Grand Palace";
                  room_type := "Premium Suite"; capacity := 3;
                  assigned := [priya; sneha] |} in
  unassignedGuests (autoAssign demo_state) = [amit] ∧
  currentOccupancy suite + occupancy amit > capacity suite.
Proof.
  intros amit priya sneha suite. split; [reflexivity|].
  apply (proj1 (autoAssign_leaves_no_fit demo_state
                  ltac:(repeat constructor)) suite amit).
  - vm_compute. do 1 constructor. constructor.
  - vm_compute. constructor.
Defined.

(** X8. On a pool of guests of positive occupancy [autoAssign] is
    idempotent: a second pass finds nothing to add and returns the state
    of the first. *)
Theorem autoAssign_idempotent (s : State) :
  Forall (λ g, 0 < occupancy g) (unassignedGuests s) →
  autoAssign (autoAssign s) = autoAssign s.
Proof.
  intros Hpos.
  pose proof (fill_rooms_maximal (rooms s) (unassignedGuests s) Hpos) as Hmax.
  unfold autoAssign.
  rewrite (handleAutoAssign_eq (handleAutoAssign s)).
  rewrite (handleAutoAssign_eq s). cbn [rooms unassignedGuests draggedGuest warning].
  rewrite fill_rooms_fixed by done. cbn [fst snd].
  f_equal. by case_bool_decide.
Qed.

Lemma autoAssign_idempotent_witness :
  autoAssign (autoAssign demo_state) = autoAssign demo_state.
Proof.
  apply (autoAssign_idempotent demo_state). repeat constructor.
Defined.

(** X9. [autoAssign] never unassigns: every room keeps its guests in
    order and only gains guests of the pool at the end of its list, and
    the pool only loses guests, the others keeping their order. *)
Theorem autoAssign_only_appends (s : State) :
  (∀ i room, rooms s !! i = Some room →
     ∃ added,
       rooms (autoAssign s) !! i =
         Some (with_assigned room (assigned room ++ added)) ∧
       added `sublist_of` unassignedGuests s) ∧
  unassignedGuests (autoAssign s) `sublist_of` unassignedGuests s.
Proof.
  unfold autoAssign. destruct (handleAutoAssign_unfold s) as [-> ->].
  split; [|apply fill_rooms_final_sublist].
  intros i room Hi.
  pose proof (fill_rooms_appends (rooms s) (unassignedGuests s)) as Hall.
  destruct (Forall2_lookup_l _ _ _ _ _ Hall Hi) as (room' & Hi' & added & -> & Hsub).
  eauto.
Qed.

(** X10. With an empty pool, which is when the Auto Assign button is
    disabled, [autoAssign] changes no room and leaves the pool empty; with
    no rooms it changes nothing in the pool. *)
Theorem autoAssign_nothing_to_do (s : State) :
  (autoAssignDisabled s = true →
   rooms (autoAssign s) = rooms s ∧ unassignedGuests (autoAssign s) = [] ∧
   warning (autoAssign s) = None) ∧
  (rooms s = [] →
   rooms (autoAssign s) = [] ∧
   unassignedGuests (autoAssign s) = unassignedGuests s).
Proof.
  unfold autoAssign, autoAssignDisabled. split.
  - intros Hempty%bool_decide_eq_true. apply nil_length_inv in Hempty.
    pose proof (handleAutoAssign_unfold s) as [Hr Hp].
    rewrite Hempty in Hr, Hp.
    rewrite fill_rooms_fixed in Hr, Hp
      by (apply Forall_forall; intros; constructor).
    split_and!; [done|done|].
    unfold handleAutoAssign in *.
    destruct (fold_left fill_room _ _) as [nr rem]. cbn in *. by subst rem.
  - intros Hnone. destruct (handleAutoAssign_unfold s) as [-> ->].
    by rewrite Hnone.
Qed.

Lemma autoAssign_nothing_to_do_witness :
  let s := reset demo_state in
  let s' := {| unassignedGuests := []; rooms := rooms s;
               draggedGuest := None; warning := Some "stale" |} in
  rooms (autoAssign s') = rooms s' ∧ unassignedGuests (autoAssign s') = [] ∧
  warning (autoAssign s') = None.
Proof.
  intros s s'. apply (proj1 (autoAssign_nothing_to_do s')). reflexivity.
Defined.

(** ** Conservation along a sequence of gestures *)

Lemma step_room_ids (s : State) (op : Op) :
  room_id <$> rooms (step s op) = room_id <$> rooms s.
Proof.
  assert (Hframe : room_frame <$> rooms (step s op) = room_frame <$> rooms s).
  { destruct op as [guest source targetRoomId|guest source| |]; cbn [step].
    - destruct (handleDropToRoom targetRoomId (handleDragStart guest source s))
        as [s'|] eqn:Hdrop; cbn [commit]; [|done].
      by rewrite (handleDropToRoom_frame _ _ _ Hdrop).
    - unfold unassign. by rewrite handleDropToUnassigned_frame.
    - apply handleAutoAssign_frame.
    - apply handleReset_frame. }
  change room_id with ((λ f : string * string * string * Z, f.1.1.1) ∘ room_frame).
  by rewrite !list_fmap_compose, Hframe.
Qed.

(** X11. Along every sequence of calls made on rendered cards, none of
    them a drop on the room the card comes from, the guests are conserved:
    from a state whose guest ids and room ids are pairwise distinct, the
    guests after each call are a permutation of the guests at the start and
    every guest id still occurs once. *)
Theorem trace_conserves_guests (s : State) (ops : list Op) :
  NoDup (guest_id <$> all_guests s) → NoDup (room_id <$> rooms s) →
  ops_rendered s ops →
  Forall (λ s', all_guests s' ≡ₚ all_guests s ∧
                NoDup (guest_id <$> all_guests s'))
    (trace s ops).
Proof.
  revert s. induction ops as [|op ops IH]; intros s Hguests Hrooms Hops;
    cbn [trace]; [constructor|].
  destruct Hops as (Hop & Hother & Hops).
  assert (Hstep : all_guests (step s op) ≡ₚ all_guests s).
  { apply step_conserves_guests; [done..|].
    intros guest source targetRoomId -> Hsame. by apply Hother. }
  assert (Hguests' : NoDup (guest_id <$> all_guests (step s op)))
    by (by rewrite Hstep).
  constructor; [done|].
  eapply Forall_impl.
  - apply IH; [done| |done]. by rewrite step_room_ids.
  - intros s' [Hperm Hnd]. simpl. split; [by rewrite Hperm|done].
Qed.

Lemma trace_conserves_guests_witness :
  let priya := {| guest_id := "2"; guest_name := "Priya Sharma"; occupancy := 1 |} in
  Forall (λ s', all_guests s' ≡ₚ all_guests demo_state ∧
                NoDup (guest_id <$> all_guests s'))
    (trace demo_state
       [OpAssign priya "unassigned" "r1"; OpAssign priya "r1" "r2";
        OpAutoAssign; OpUnassign priya "r2"; OpReset]).
Proof.
  intros priya.
  apply (trace_conserves_guests demo_state).
  - apply (bool_decide_unpack _). by vm_compute.
  - apply (bool_decide_unpack _). by vm_compute.
  - cbn [ops_rendered op_rendered same_room_drop]. split_and!; try exact I;
      try (intros H; discriminate H); try (intros []).
    + left. split; [reflexivity|]. vm_compute. do 1 constructor. constructor.
    + exists {| room_id := "r1"; hotel := "The Grand Palace";
                room_type := "Deluxe Room"; capacity := 2; assigned := [] |}.
      split; [constructor|reflexivity].
    + right. split; [discriminate|].
      exists {| room_id := "r1"; hotel := "The Grand Palace";
                room_type := "Deluxe Room"; capacity := 2; assigned := [priya] |}.
      split_and!; [vm_compute; constructor|reflexivity|constructor].
    + exists {| room_id := "r2"; hotel := "The Grand Palace";
                room_type := "Premium Suite"; capacity := 3; assigned := [] |}.
      split; [vm_compute; do 1 constructor; constructor|reflexivity].
    + right. split; [discriminate|].
      eexists {| room_id := "r2"; hotel := "The Grand Palace";
                 room_type := "Premium Suite"; capacity := 3; assigned := _ |}.
      split_and!; [vm_compute; do 1 constructor; constructor|reflexivity|].
      cbn [assigned]. apply list_elem_of_here.
Defined.

End RoomMappingGestures.

(** * The rooms the page starts with *)

Section RoomGenerationProperties.
Import RoomMapping.

Variable Number : string → option Z.
Variable JSON_parse : string → option Parsed.

(** ** Room ids as strings *)

Lemma no_dash_app_dash (a b : string) : ¬ no_dash (a +:+ String "-" b).
Proof.
  induction a as [|x a IH]; simpl.
  - by intros [? _].
  - intros [_ H]. by apply IH.
Qed.

Lemma dash_split (a b c d : string) :
  no_dash b → no_dash d →
  a +:+ String "-" b = c +:+ String "-" d → a = c ∧ b = d.
Proof.
  intros Hb Hd. revert c.
  induction a as [|x a IH]; intros [|y c]; simpl; intros Heq.
  - by injection Heq as ->.
  - injection Heq as _ ->. by destruct (no_dash_app_dash c d).
  - injection Heq as _ <-. by destruct (no_dash_app_dash a b).
  - injection Heq as -> Heq. by destruct (IH c Heq) as [-> ->].
Qed.

Lemma no_dash_pretty_N_go (x : N) (s : string) :
  no_dash s → no_dash (pretty_N_go x s).
Proof.
  revert s. induction (N.lt_wf_0 x) as [x _ IH]; intros s Hs.
  assert (x = 0 ∨ 0 < x)%N as [->|Hpos] by lia.
  - by rewrite pretty_N_go_0.
  - rewrite pretty_N_go_step by done. apply IH.
    + by apply N.div_lt.
    + simpl. split; [|done]. unfold pretty_N_char. by repeat case_match.
Qed.

Lemma no_dash_pretty_nat (i : nat) : no_dash (pretty (Z.of_nat i)).
Proof.
  unfold pretty, pretty_Z.
  destruct (Z.of_nat i) as [|p|p] eqn:Hi; [by split| |lia].
  unfold pretty, pretty_positive, pretty, pretty_N.
  case_decide; [done|]. by apply no_dash_pretty_N_go.
Qed.

Lemma room_instance_id_inj (h h' : Hotel) (rd rd' : RoomType) (i i' : nat) :
  room_id (room_instance h rd i) = room_id (room_instance h' rd' i') →
  rt_id rd = rt_id rd' ∧ i = i'.
Proof.
  cbn [room_id room_instance]. intros Heq.
  apply dash_split in Heq as [Hid Hi]; [|apply no_dash_pretty_nat..].
  apply (inj pretty) in Hid. apply (inj pretty) in Hi. split; [done|lia].
Qed.


(** ** The loops of the effect *)

Lemma push_instances (f : nat → Room) (l : list nat) (generatedRooms : list Room) :
  fold_left (λ rs i, rs ++ [f i]) l generatedRooms = generatedRooms ++ (f <$> l).
Proof.
  revert generatedRooms. induction l as [|i l IH]; intros acc; simpl.
  - by rewrite app_nil_r.
  - by rewrite IH, <- app_assoc.
Qed.

Lemma generate_entry_rooms (h : Hotel) (generatedRooms : list Room)
    (entry : string * Z) :
  generate_entry Number h generatedRooms entry =
  generatedRooms ++ entry_rooms Number h entry.
Proof.
  unfold generate_entry, entry_rooms, entry_type. destruct entry as [roomId qty].
  cbn [fst snd]. case_bool_decide; [|by rewrite app_nil_r].
  destruct (find_room_details Number h roomId) as [rd|]; [|by rewrite app_nil_r].
  apply push_instances.
Qed.

Lemma generateRooms_concat (h : Hotel) (selectedRooms : list (string * Z)) :
  generateRooms Number h selectedRooms =
  concat (entry_rooms Number h <$> selectedRooms).
Proof.
  unfold generateRooms.
  assert (Hgen : ∀ acc,
    fold_left (generate_entry Number h) selectedRooms acc =
    acc ++ concat (entry_rooms Number h <$> selectedRooms)).
  { induction selectedRooms as [|entry l IH]; intros acc; simpl.
    - by rewrite app_nil_r.
    - by rewrite IH, generate_entry_rooms, <- app_assoc. }
  by rewrite Hgen.
Qed.


(** ** The lookup of a room type, against the hotel's categories *)







Lemma elem_of_concat_list {A : Type} (x : A) (ls : list (list A)) :
  x ∈ concat ls ↔ ∃ l, l ∈ ls ∧ x ∈ l.
Proof.
  rewrite list_elem_of_In, in_concat. split.
  - intros (l & Hl & Hx). exists l. by rewrite !list_elem_of_In.
  - intros (l & Hl & Hx). exists l. by rewrite <- !list_elem_of_In.
Qed.









Lemma entry_rooms_ids (h : Hotel) (entry : string * Z) (room : Room) :
  room ∈ entry_rooms Number h entry →
  ∃ roomDetails i,
    entry_type Number h entry = Some roomDetails ∧
    room = room_instance h roomDetails i.
Proof.
  unfold entry_rooms. destruct (entry_type Number h entry) as [rd|];
    [|by intros ?%elem_of_nil].
  intros (i & -> & _)%list_elem_of_fmap. eauto.
Qed.

Lemma entry_rooms_NoDup (h : Hotel) (entry : string * Z) :
  NoDup (room_id <$> entry_rooms Number h entry).
Proof.
  unfold entry_rooms. destruct (entry_type Number h entry) as [rd|];
    [|constructor].
  rewrite <- list_fmap_compose. apply NoDup_fmap_2_strong; [|apply NoDup_seq].
  intros i j _ _ Heq. by apply room_instance_id_inj in Heq as [_ ->].
Qed.

(** X14. When the entries of the selection resolve to room types of
    pairwise distinct ids, the ids of the generated rooms are pairwise
    distinct. *)
Theorem generateRooms_ids_distinct (h : Hotel) (selectedRooms : list (string * Z)) :
  NoDup (rt_id <$> omap (entry_type Number h) selectedRooms) →
  NoDup (room_id <$> generateRooms Number h selectedRooms).
Proof.
  rewrite generateRooms_concat.
  induction selectedRooms as [|entry l IH]; intros Hnd; [constructor|].
  rewrite fmap_cons, concat_cons, fmap_app.
  cbn [omap list_omap] in Hnd.
  apply NoDup_app. split_and!.
  - apply entry_rooms_NoDup.
  - intros id Hhere Hlater.
    apply list_elem_of_fmap in Hhere as (r1 & -> & Hr1).
    apply list_elem_of_fmap in Hlater as (r2 & Hid & Hr2).
    apply entry_rooms_ids in Hr1 as (rd1 & i1 & Hrd1 & ->).
    apply elem_of_concat_list in Hr2 as (rs2 & Hrs2 & Hr2).
    apply list_elem_of_fmap in Hrs2 as (entry2 & -> & Hentry2).
    apply entry_rooms_ids in Hr2 as (rd2 & i2 & Hrd2 & ->).
    apply room_instance_id_inj in Hid as [Hid _].
    rewrite Hrd1 in Hnd. rewrite fmap_cons in Hnd.
    apply NoDup_cons in Hnd as [Hfresh _]. apply Hfresh.
    rewrite Hid. apply list_elem_of_fmap_2.
    apply list_elem_of_omap. eauto.
  - apply IH. destruct (entry_type Number h entry); [|done].
    rewrite fmap_cons in Hnd. by apply NoDup_cons in Hnd as [_ ?].
Qed.

End RoomGenerationProperties.

Section RoomGenerationWitnesses.
Import RoomMapping.

Lemma generateRooms_ids_distinct_witness :
  let number := λ key : string,
    if decide (key = "101") then Some 101
    else if decide (key = "205") then Some 205 else None in
  let palace :=
    {| hotel_name := "The Grand Palace";
       hotel_rooms :=
         [ [ {| rt_id := 101; rt_name := "Deluxe Room"; rt_capacity := 2 |} ];
           [ {| rt_id := 205; rt_name := "Premium Suite"; rt_capacity := 3 |} ] ] |} in
  NoDup (room_id <$> generateRooms number palace
                       [("101", 2); ("205", 1); ("300", 4); ("101x", 0)]).
Proof.
  intros number palace.
  apply (generateRooms_ids_distinct number palace).
  apply (bool_decide_unpack _). by vm_compute.
Defined.



End RoomGenerationWitnesses.

(** * Further properties of the guest management page *)

Section ManageGuestsFetchAndRows.
Import ManageGuests.

Lemma groupedGuests_stays_thrown (l : list Guest) :
  fold_left
    (λ acc guest,
       match acc with
       | Done m => group_step m guest
       | TypeError => TypeError
       end) l TypeError = TypeError.
Proof. induction l as [|g l IH]; [done|]. exact IH. Qed.

(** X15. The grouping stops on a [TypeError] exactly when the key of some
    fetched guest names a property inherited from [Object.prototype];
    otherwise it returns the groups. *)
Theorem groupedGuests_throws_iff (guests : list Guest) :
  (groupedGuests guests = TypeError ↔
   ∃ g, g ∈ guests ∧ group_key g ∈ inherited_names) ∧
  ((∀ g, g ∈ guests → group_key g ∉ inherited_names) →
   ∃ groups, groupedGuests guests = Done groups).
Proof.
  assert (Hdone : (∀ g, g ∈ guests → group_key g ∉ inherited_names) →
                  ∃ groups, groupedGuests guests = Done groups).
  { intros Hkeys. apply Forall_forall in Hkeys.
    destruct (groupedGuests_lookup guests Hkeys) as (groups & Hgroups & _).
    eauto. }
  split; [|exact Hdone]. split.
  - intros Hthrow.
    destruct (decide (Exists (λ g, group_key g ∈ inherited_names) guests))
      as [Hex|Hnone].
    + apply Exists_exists in Hex as (g & Hg & Hkey). eauto.
    + apply not_Exists_Forall in Hnone; [|intros g; apply _].
      rewrite Forall_forall in Hnone.
      destruct (Hdone Hnone) as [groups Hgroups]. congruence.
  - intros (g & Hg & Hkey).
    apply list_elem_of_split in Hg as (before & after & ->).
    unfold groupedGuests. rewrite fold_left_app. cbn [fold_left].
    assert (Hstep : ∀ acc,
              match acc with
              | Done m => group_step m g
              | TypeError => TypeError
              end = TypeError).
    { intros [m|]; [|done]. unfold group_step.
      by rewrite bool_decide_eq_true_2. }
    rewrite Hstep. apply groupedGuests_stays_thrown.
Qed.

Lemma rows_count (l : list (list Guest)) :
  Forall (λ group, group ≠ []) l →
  sum_list_with (λ group, S (length (otherMembers group))) l = length (concat l).
Proof.
  induction 1 as [|group l Hgroup _ IH]; [done|].
  rewrite concat_cons, length_app. cbn [sum_list_with]. rewrite IH.
  destruct group as [|head rest]; [done|].
  unfold otherMembers. cbn [drop length]. by rewrite drop_0.
Qed.

(** X16. When the grouping returns, the table shows its placeholder row
    (no group) exactly when no guest was fetched, there are at most as
    many rows as guests, and the head guests together with the other
    members listed under them count every fetched guest once. *)
Theorem guestGroups_rows (guests : list Guest) (groups : gmap string (list Guest)) :
  groupedGuests guests = Done groups →
  (length (guestGroups groups) = 0%nat ↔ guests = []) ∧
  (length (guestGroups groups) ≤ length guests)%nat ∧
  sum_list_with (λ group, S (length (otherMembers group))) (guestGroups groups)
  = length guests.
Proof.
  intros Hgroups.
  assert (Hkeys : Forall (λ g, group_key g ∉ inherited_names) guests).
  { rewrite Forall_forall. intros g Hg Hkey.
    assert (groupedGuests guests = TypeError) as Hthrow; [|congruence].
    apply list_elem_of_split in Hg as (before & after & ->).
    unfold groupedGuests. rewrite fold_left_app. cbn [fold_left].
    assert (Hstep : ∀ acc,
              match acc with
              | Done m => group_step m g
              | TypeError => TypeError
              end = TypeError).
    { intros [m|]; [|done]. unfold group_step.
      by rewrite bool_decide_eq_true_2. }
    rewrite Hstep. apply groupedGuests_stays_thrown. }
  destruct (groupedGuests_lookup guests Hkeys) as (groups' & Hgroups' & Hlookup & Hperm).
  assert (groups' = groups) as -> by congruence.
  assert (Hnonempty : Forall (λ group, group ≠ []) (guestGroups groups)).
  { rewrite Forall_forall. intros group [key Hkey]%elem_of_guestGroups.
    rewrite Hlookup in Hkey.
    destruct (decide (members key guests = [])) as [Hnil|Hcons]; [done|].
    by injection Hkey as <-. }
  pose proof (rows_count _ Hnonempty) as Hsum.
  assert (Hlen : length (concat (guestGroups groups)) = length guests)
    by (by rewrite Hperm).
  split_and!.
  - split.
    + intros Hnil%nil_length_inv. rewrite Hnil in Hperm. simpl in Hperm.
      by apply Permutation_nil in Hperm.
    + intros ->. simpl in Hlen. rewrite <- Hsum in Hlen.
      destruct (guestGroups groups); [done|]. simpl in Hlen. lia.
  - rewrite <- Hlen, <- Hsum. clear.
    induction (guestGroups groups) as [|group l IH]; simpl; lia.
  - by rewrite Hsum.
Qed.

Lemma guestGroups_rows_witness :
  let asha := mkGuest "1" "Asha Rao" 41 adult "" "" "e1" "F1" "" "" in
  let ravi := mkGuest "2" "Ravi Rao" 9 child "" "" "e1" "F1" "" "" in
  let meera := mkGuest "3" "Meera Nair" 35 adult "" "" "e1" "" "" "" in
  ∃ groups,
    groupedGuests [asha; meera; ravi] = Done groups ∧
    sum_list_with (λ group, S (length (otherMembers group))) (guestGroups groups)
    = 3%nat.
Proof.
  intros asha ravi meera.
  eexists. split; [reflexivity|].
  refine (proj2 (proj2 (guestGroups_rows [asha; meera; ravi] _ eq_refl))).
Defined.

(** X17. A fetch is only started with a token and an authenticated user;
    otherwise no cell of the page is written, and the loading indicator
    stays as it was.  A started fetch always ends with the loading
    indicator off and never touches the expanded row.  When a body is
    parsed the guests shown are [data.guests], or none when [data] or
    [data.guests] is absent, whatever the [success] flag says; when the
    request fails the guests shown before are kept. *)
Theorem guestsEffect_outcome (token : option string) (isAuthenticated : bool)
    (r : FetchResult) (st : PageState) :
  expandedRowId (guestsEffect token isAuthenticated r st) = expandedRowId st ∧
  (no_token token = true ∨ isAuthenticated = false →
   guestsEffect token isAuthenticated r st = st) ∧
  (no_token token = false → isAuthenticated = true →
   loading (guestsEffect token isAuthenticated r st) = false ∧
   guests (guestsEffect token isAuthenticated r st) =
     match r with
     | Json result => guests_or_empty result
     | _ => guests st
     end).
Proof.
  unfold guestsEffect, fetchGuests. split_and!.
  - destruct isAuthenticated; [|done].
    destruct (no_token token); [done|]. by destruct r.
  - intros [->| ->]; [|done]. by destruct isAuthenticated.
  - intros -> ->. cbn. destruct r as [| | |result]; try done.
    split; [done|]. cbn. unfold guests_or_empty.
    by destruct (success result), (data result) as [[l|]|].
Qed.

Lemma guestsEffect_outcome_witness :
  let body := {| success := false; data := Some (Some []); error := Some "x" |} in
  loading (guestsEffect (Some "t") true (Json body) initialPage) = false ∧
  guests (guestsEffect (Some "t") true (Json body) initialPage) = [].
Proof.
  intros body.
  apply (proj2 (proj2 (guestsEffect_outcome (Some "t") true (Json body) initialPage)));
    reflexivity.
Defined.

End ManageGuestsFetchAndRows.
